(** * Interactive visualizer notebook: a shallow embedding

    Source: [examples/tutorial/interactive_visualizer.ipynb].

    The notebook loads a textured mesh, patches its uv indices, defines the
    render callbacks [base_render], [render] and [lowres_render], and wires
    two handlers ([additional_event_handler], [sliders_callback]) into an
    interactive visualizer.  The embedding keeps that layering:

    - [F32] / [F64]: IEEE-754 binary32 / binary64 values, through the
      standard library's executable specification of floats;
    - [outcome]: a Python call either returns or raises;
    - [grid]: the batch-of-one image tensors of the renderer, one payload
      per pixel; the mesh attributes and the lighting parameters are lists
      of rows;
    - [World] and the monad [M]: the notebook's module-level variables and
      the visualizer object, threaded through every call;
    - [Backend]: the services the notebook calls but does not define
      (rasterizer, texture sampling, camera math, lighting). *)

From Stdlib Require Import ZArith List Bool Lia.
From Stdlib Require Floats.SpecFloat.
From stdpp Require Import base option list gmap strings.

Local Open Scope Z_scope.

(** ** Floating point *)

(** torch's default dtype: IEEE-754 binary32. *)
Module F32.
Definition prec : Z := 24.
Definition emax : Z := 128.
Definition t : Type := SpecFloat.spec_float.

Definition zero : t := SpecFloat.S754_zero false.
Definition of_Z (n : Z) : t := SpecFloat.binary_normalize prec emax n 0 false.
Definition one : t := of_Z 1.
Definition half : t := SpecFloat.binary_normalize prec emax 1 (-1) false.
Definition add : t -> t -> t := SpecFloat.SFadd prec emax.
Definition sub : t -> t -> t := SpecFloat.SFsub prec emax.
Definition mul : t -> t -> t := SpecFloat.SFmul prec emax.
Definition div : t -> t -> t := SpecFloat.SFdiv prec emax.
Definition opp : t -> t := SpecFloat.SFopp.
Definition ltb : t -> t -> bool := SpecFloat.SFltb.
Definition eqb : t -> t -> bool := SpecFloat.SFeqb.

Definition is_nan (x : t) : bool :=
  match x with SpecFloat.S754_nan => true | _ => false end.

(** A bool tensor promoted to float in a product: [False] is 0., [True] 1. *)
Definition of_bool (b : bool) : t := if b then one else zero.

(** [x != 0] on a float tensor; a NaN differs from everything. *)
Definition nonzero (x : t) : bool := negb (eqb x zero).

(** [torch.clamp(x, lo, hi)] is [min(max(x, lo), hi)], a NaN passing
    through. *)
Definition clamp (lo hi x : t) : t :=
  if is_nan x then x
  else if ltb x lo then lo
  else if ltb hi x then hi
  else x.

(** [torch.sign], computed as [(0 < x) - (x < 0)]. *)
Definition sign (x : t) : t :=
  sub (of_bool (ltb zero x)) (of_bool (ltb x zero)).

(** Truncation toward zero of a finite value; [None] for NaN and the
    infinities. *)
Definition trunc (x : t) : option Z :=
  match x with
  | SpecFloat.S754_zero _ => Some 0
  | SpecFloat.S754_finite s m e =>
      let a := if 0 <=? e then Z.shiftl (Z.pos m) e
               else Z.shiftr (Z.pos m) (- e) in
      Some (if s then - a else a)
  | _ => None
  end.
End F32.

(** Python's [float]: IEEE-754 binary64. *)
Module F64.
Definition prec : Z := 53.
Definition emax : Z := 1024.
Definition t : Type := SpecFloat.spec_float.

Definition of_Z (n : Z) : t := SpecFloat.binary_normalize prec emax n 0 false.
Definition div : t -> t -> t := SpecFloat.SFdiv prec emax.
Definition nonzero (x : t) : bool := negb (SpecFloat.SFeqb x (SpecFloat.S754_zero false)).

(** Truncation toward zero of a finite value. *)
Definition trunc (x : t) : option Z :=
  match x with
  | SpecFloat.S754_zero _ => Some 0
  | SpecFloat.S754_finite s m e =>
      let a := if 0 <=? e then Z.shiftl (Z.pos m) e
               else Z.shiftr (Z.pos m) (- e) in
      Some (if s then - a else a)
  | _ => None
  end.

(** Storing a Python float into a float32 tensor rounds it to nearest
    even in binary32. *)
Definition to_f32 (x : t) : F32.t :=
  match x with
  | SpecFloat.S754_finite s m e => SpecFloat.binary_round F32.prec F32.emax s m e
  | _ => x
  end.

(** The largest finite float32, (2^24 - 1) * 2^104, as a double. *)
Definition f32_max : t := SpecFloat.binary_normalize prec emax (2 ^ 24 - 1) 104 false.

(** The check torch makes before it converts a Python float to float32: a
    finite value above the largest float32 or below its opposite is
    refused; the infinities and NaN pass. *)
Definition fits_f32 (x : t) : bool :=
  match x with
  | SpecFloat.S754_finite _ _ _ =>
      negb (SpecFloat.SFltb f32_max x || SpecFloat.SFltb x (SpecFloat.SFopp f32_max))
  | _ => true
  end.
End F64.

(** ** Python calls and values *)

Inductive exn : Type :=
| KeyError (key : string)
| IndexError
| ValueError
| OverflowError
| ZeroDivisionError
| RuntimeError (what : string).

(** A call returns a value or raises. *)
Inductive outcome (A : Type) : Type :=
| Ok (a : A)
| Raise (e : exn).
Arguments Ok {A} a.
Arguments Raise {A} e.

#[global] Instance outcome_ret : MRet outcome := fun A a => Ok a.
#[global] Instance outcome_bind : MBind outcome := fun A B f o =>
  match o with
  | Ok a => f a
  | Raise e => Raise e
  end.

Definition is_ok {A : Type} (o : outcome A) : bool :=
  match o with Ok _ => true | Raise _ => false end.

(** The values that travel through the handlers: event fields, slider
    values and handler results. *)
Inductive pyval : Type :=
| PyNone
| PyBool (b : bool)
| PyInt (n : Z)
| PyFloat (x : F64.t)
| PyStr (s : string).

(** Truth value testing, as [if v:] does it. *)
Definition truthy (v : pyval) : bool :=
  match v with
  | PyNone => false
  | PyBool b => b
  | PyInt n => negb (n =? 0)
  | PyFloat x => F64.nonzero x
  | PyStr s => negb (String.eqb s "")
  end.

(** [v == 'literal']: only a [str] equals a [str]. *)
Definition py_eq_str (v : pyval) (lit : string) : bool :=
  match v with
  | PyStr s => String.eqb s lit
  | _ => false
  end.

(** An event is the dict the widget toolkit delivers. *)
Abbreviation event := (gmap string pyval).

(** [d[key]] *)
Definition getitem (d : event) (key : string) : outcome pyval :=
  match d !! key with
  | Some v => Ok v
  | None => Raise (KeyError key)
  end.

(** [seq[i]] with Python's negative indices. *)
Definition py_index {A : Type} (l : list A) (i : Z) : outcome A :=
  let n := Z.of_nat (length l) in
  let j := if i <? 0 then i + n else i in
  if (0 <=? j) && (j <? n) then
    match l !! Z.to_nat j with
    | Some x => Ok x
    | None => Raise IndexError
    end
  else Raise IndexError.

(** [a / b] on two [int]s: the correctly rounded binary64 quotient. *)
Definition py_truediv (a b : Z) : outcome F64.t :=
  match b with
  | Z0 => Raise ZeroDivisionError
  | _ =>
      let fin (n : Z) : F64.t :=
        match n with
        | Z0 => SpecFloat.S754_zero false
        | Zpos m => SpecFloat.S754_finite false m 0
        | Zneg m => SpecFloat.S754_finite true m 0
        end in
      match F64.div (fin a) (fin b) with
      | SpecFloat.S754_infinity _ => Raise OverflowError
      | q => Ok q
      end
  end.

(** [int(x)] on a [float]: truncation toward zero. *)
Definition py_int (x : F64.t) : outcome Z :=
  match x with
  | SpecFloat.S754_nan => Raise ValueError
  | SpecFloat.S754_infinity _ => Raise OverflowError
  | _ => match F64.trunc x with
         | Some n => Ok n
         | None => Raise ValueError
         end
  end.

(** ** Tensors of the notebook *)

Definition vec2 : Type := F32.t * F32.t.
Definition vec3 : Type := F32.t * F32.t * F32.t.
Definition vec4 : Type := F32.t * F32.t * F32.t * F32.t.
Definition face : Type := Z * Z * Z.
Definition rgb8 : Type := Z * Z * Z.

Definition vec3_zero : vec3 := (F32.zero, F32.zero, F32.zero).
Definition vec3_map (f : F32.t -> F32.t) (v : vec3) : vec3 :=
  let '(x, y, z) := v in (f x, f y, f z).
Definition vec3_zip (f : F32.t -> F32.t -> F32.t) (a b : vec3) : vec3 :=
  let '(x, y, z) := a in let '(x', y', z') := b in (f x x', f y y', f z z').
Definition face_map (f : Z -> Z) (t : face) : face :=
  let '(a, b, c) := t in (f a, f b, f c).

(** One pixel of the rasterizer's output: barycentrics, depth and the
    1-based triangle id (0 where nothing was drawn). *)
Record rast_px : Type := RastPx {
  bary_u : F32.t;
  bary_v : F32.t;
  depth : F32.t;
  tri_id : F32.t
}.

(** A batch-of-one image tensor of shape (1, rows, cols, C): one payload
    of type [P] per pixel, row-major. *)
Record grid (P : Type) : Type := Grid {
  grows : nat;
  gcols : nat;
  gpix : list P
}.
Arguments Grid {P} grows gcols gpix.
Arguments grows {P} g.
Arguments gcols {P} g.
Arguments gpix {P} g.

Definition grid_wf {P : Type} (g : grid P) : Prop :=
  length (gpix g) = (grows g * gcols g)%nat.

Definition same_extent {P Q : Type} (a : grid P) (b : grid Q) : bool :=
  bool_decide (grows a = grows b) && bool_decide (gcols a = gcols b)
  && bool_decide (length (gpix a) = length (gpix b)).

(** [torch.zeros((1, height, width, 3))]: a negative dimension is an error. *)
Definition grid_zeros (height width : Z) : outcome (grid vec3) :=
  if (height <? 0) || (width <? 0) then Raise (RuntimeError "negative dimension")
  else
    let h := Z.to_nat height in
    let w := Z.to_nat width in
    Ok (Grid h w (replicate (h * w) vec3_zero)).

Definition grid_map {P Q : Type} (f : P -> Q) (g : grid P) : grid Q :=
  Grid (grows g) (gcols g) (f <$> gpix g).

Definition grid_mapM {P Q : Type} (f : P -> outcome Q) (g : grid P) : outcome (grid Q) :=
  px ← mapM f (gpix g); Ok (Grid (grows g) (gcols g) px).

(** Pointwise combination of two tensors over the same pixels.  The
    operands the notebook combines all have the extent of the rasterizer
    output; operands of different extents are an error here (the tensor
    library would first try to broadcast them). *)
Definition grid_zip {P Q R : Type} (f : P -> Q -> R) (a : grid P) (b : grid Q)
  : outcome (grid R) :=
  if same_extent a b then Ok (Grid (grows a) (gcols a) (zip_with f (gpix a) (gpix b)))
  else Raise (RuntimeError "shape mismatch").

(** Rows of [cols] pixels each. *)
Fixpoint chunks {P : Type} (n : nat) (cols : nat) (l : list P) : list (list P) :=
  match n with
  | O => []
  | S n' => take cols l :: chunks n' cols (drop cols l)
  end.

(** [torch.flip(t, dims=(1,))]: the rows in reverse order. *)
Definition grid_flip {P : Type} (g : grid P) : grid P :=
  Grid (grows g) (gcols g) (concat (reverse (chunks (grows g) (gcols g) (gpix g)))).

(** [t[mask]]: the pixels under a true mask entry, in row-major order. *)
Fixpoint select {P : Type} (l : list P) (mask : list bool) : list P :=
  match l, mask with
  | x :: l', b :: mask' => if b then x :: select l' mask' else select l' mask'
  | _, _ => []
  end.

Definition masked_select {P : Type} (g : grid P) (mask : grid bool) : outcome (list P) :=
  if same_extent g mask then Ok (select (gpix g) (gpix mask))
  else Raise IndexError.

Definition count_true (mask : list bool) : nat := length (filter (eq true) mask).

(** The right-hand side of [t[mask] = vals]: as many rows as there are true
    mask entries, or one row that is broadcast. *)
Definition broadcast_rows {P : Type} (n : nat) (vals : list P) : outcome (list P) :=
  if bool_decide (length vals = n) then Ok vals
  else match vals with
       | [v] => Ok (replicate n v)
       | _ => Raise (RuntimeError "shape mismatch")
       end.

(** Pixels under a true mask entry take the next value, the others stay. *)
Fixpoint scatter {P : Type} (l : list P) (mask : list bool) (vals : list P) : list P :=
  match l, mask with
  | x :: l', b :: mask' =>
      if b then
        match vals with
        | v :: vals' => v :: scatter l' mask' vals'
        | [] => x :: scatter l' mask' []
        end
      else x :: scatter l' mask' vals
  | _, _ => l
  end.

(** [t[mask] = vals] *)
Definition masked_assign {P : Type} (g : grid P) (mask : grid bool) (vals : list P)
  : outcome (grid P) :=
  if same_extent g mask then
    vals' ← broadcast_rows (count_true (gpix mask)) vals;
    Ok (Grid (grows g) (gcols g) (scatter (gpix g) (gpix mask) vals'))
  else Raise IndexError.

(** [t[mask] += vals]: read the selection, add, write it back. *)
Definition masked_add (g : grid vec3) (mask : grid bool) (vals : list vec3)
  : outcome (grid vec3) :=
  cur ← masked_select g mask;
  vals' ← broadcast_rows (length cur) vals;
  masked_assign g mask (zip_with (vec3_zip F32.add) cur vals').

(** Conversions between dtypes. *)
Definition wrap_signed (bits : Z) (n : Z) : Z :=
  (n + 2 ^ (bits - 1)) mod 2 ^ bits - 2 ^ (bits - 1).

(** [t.int()] on an int64 tensor. *)
Definition to_int32 (n : Z) : Z := wrap_signed 32 n.

(** ** The notebook's objects *)

(** The camera fields the notebook reads.  Extrinsics and intrinsics are
    opaque parameter vectors: only the camera library interprets them. *)
Record Camera : Type := {
  cam_height : Z;
  cam_width : Z;
  cam_x0 : F32.t;
  cam_y0 : F32.t;
  cam_extrinsics : list F32.t;
  cam_intrinsics : list F32.t
}.

(** The batched mesh ([mesh.to_batched()], one mesh in the batch). *)
Record Mesh : Type := {
  vertices : list vec3;
  faces : list face;
  normals : option (list vec3);
  face_normals_idx : option (list face);
  uvs : list vec2;
  face_uvs_idx : list face;
  material_assignments : list Z
}.

(** The module-level variables of the notebook. *)
Record Globals : Type := {
  mesh : Mesh;
  diffuse_maps : list (grid vec3);
  specular_maps : list (grid vec3);
  camera : Camera;
  azimuth : list F32.t;
  elevation : list F32.t;
  amplitude : list vec3;
  sharpness : list F32.t;
  apply_specular : bool
}.

(** What a render callback returns: the displayed image and the face index
    under each pixel. *)
Record RenderResult : Type := {
  img : grid rgb8;
  face_idx : grid Z
}.

Inductive frame_request : Type := FullFrame | FastFrame.

(** The visualizer object the handlers talk to: its camera, its canvas (the
    last image drawn), its output area and the frames requested so far. *)
Record Visualizer : Type := {
  vis_camera : Camera;
  canvas : option (grid rgb8);
  out : list exn;
  frames : list frame_request
}.

Record World : Type := {
  nb : Globals;
  vis : Visualizer
}.

(** A camera argument is a reference to one of the two camera objects: the
    notebook's [camera] or the visualizer's own (deep) copy. *)
Inductive camref : Type := NotebookCamera | VisualizerCamera.

Definition deref (r : camref) (w : World) : Camera :=
  match r with
  | NotebookCamera => camera (nb w)
  | VisualizerCamera => vis_camera (vis w)
  end.

Definition set_nb (f : Globals -> Globals) (w : World) : World :=
  {| nb := f (nb w); vis := vis w |}.
Definition set_vis (f : Visualizer -> Visualizer) (w : World) : World :=
  {| nb := nb w; vis := f (vis w) |}.

Definition set_apply_specular (b : bool) (g : Globals) : Globals :=
  {| mesh := mesh g; diffuse_maps := diffuse_maps g; specular_maps := specular_maps g;
     camera := camera g; azimuth := azimuth g; elevation := elevation g;
     amplitude := amplitude g; sharpness := sharpness g; apply_specular := b |}.
Definition set_elevation (t : list F32.t) (g : Globals) : Globals :=
  {| mesh := mesh g; diffuse_maps := diffuse_maps g; specular_maps := specular_maps g;
     camera := camera g; azimuth := azimuth g; elevation := t;
     amplitude := amplitude g; sharpness := sharpness g; apply_specular := apply_specular g |}.
Definition set_azimuth (t : list F32.t) (g : Globals) : Globals :=
  {| mesh := mesh g; diffuse_maps := diffuse_maps g; specular_maps := specular_maps g;
     camera := camera g; azimuth := t; elevation := elevation g;
     amplitude := amplitude g; sharpness := sharpness g; apply_specular := apply_specular g |}.
Definition set_amplitude (t : list vec3) (g : Globals) : Globals :=
  {| mesh := mesh g; diffuse_maps := diffuse_maps g; specular_maps := specular_maps g;
     camera := camera g; azimuth := azimuth g; elevation := elevation g;
     amplitude := t; sharpness := sharpness g; apply_specular := apply_specular g |}.
Definition set_sharpness (t : list F32.t) (g : Globals) : Globals :=
  {| mesh := mesh g; diffuse_maps := diffuse_maps g; specular_maps := specular_maps g;
     camera := camera g; azimuth := azimuth g; elevation := elevation g;
     amplitude := amplitude g; sharpness := t; apply_specular := apply_specular g |}.

Definition set_vis_camera (c : Camera) (v : Visualizer) : Visualizer :=
  {| vis_camera := c; canvas := canvas v; out := out v; frames := frames v |}.
Definition set_canvas (image : grid rgb8) (v : Visualizer) : Visualizer :=
  {| vis_camera := vis_camera v; canvas := Some image; out := out v; frames := frames v |}.
Definition log_out (e : exn) (v : Visualizer) : Visualizer :=
  {| vis_camera := vis_camera v; canvas := canvas v; out := out v ++ [e]; frames := frames v |}.
Definition log_frame (r : frame_request) (v : Visualizer) : Visualizer :=
  {| vis_camera := vis_camera v; canvas := canvas v; out := out v; frames := frames v ++ [r] |}.

(** ** Calls that read and write the world *)

(** A statement runs in a world, returns or raises, and leaves a world
    behind: what was written before an exception stays written. *)
Definition M (A : Type) : Type := World -> outcome A * World.

#[global] Instance M_ret : MRet M := fun A a w => (Ok a, w).
#[global] Instance M_bind : MBind M := fun A B f m w =>
  match m w with
  | (Ok a, w') => f a w'
  | (Raise e, w') => (Raise e, w')
  end.

(** A call into a library that touches no notebook object. *)
Definition call {A : Type} (o : outcome A) : M A := fun w => (o, w).
Definition gets {A : Type} (f : World -> A) : M A := fun w => (Ok (f w), w).
Definition modify (f : World -> World) : M unit := fun w => (Ok tt, f w).
Definition read_global {A : Type} (f : Globals -> A) : M A := gets (fun w => f (nb w)).
Definition read_camera (r : camref) : M Camera := gets (deref r).

(** ** Library services *)

Inductive fov_axis : Type := HORIZONTAL | VERTICAL.

(** Everything the notebook calls and does not define: the camera and mesh
    library, the lighting functions, the rasterizer and two dtype details of
    the tensor library.  Each call may raise.  Camera methods are functions
    of the camera they are called on; the rasterizer's [interpolate] returns
    one attribute row per pixel of the raster it is given. *)
Class Backend : Type := {
  (* camera.extrinsics.transform(vertices) *)
  extrinsics_transform : Camera -> list vec3 -> outcome (list vec3);
  (* camera.extrinsics.inv_transform_rays(ray_orig, ray_dir) *)
  inv_transform_rays : Camera -> list vec3 -> list vec3 -> outcome (list vec3 * list vec3);
  (* camera.projection_matrix() *)
  projection_matrix : Camera -> outcome (list vec4);
  (* camera.tan_half_fov(axis) *)
  tan_half_fov : Camera -> fov_axis -> outcome F32.t;
  (* kal.ops.mesh.index_vertices_by_faces *)
  index_vertices_by_faces : list vec3 -> list face -> outcome (list (vec3 * vec3 * vec3));
  (* kal.ops.mesh.face_normals(..., unit=True) *)
  face_normals : list (vec3 * vec3 * vec3) -> outcome (list vec3);
  (* mesh.face_normals, computed on access *)
  mesh_face_normals : Mesh -> outcome (list (vec3 * vec3 * vec3));
  (* kal.render.camera.up_to_homogeneous *)
  up_to_homogeneous : list vec3 -> outcome (list vec4);
  (* (proj @ vecs[..., None]).squeeze(-1) *)
  matmul : list vec4 -> list vec4 -> outcome (list vec4);
  (* nvdiffrast.torch.rasterize(glctx, pos, tri, (height, width))[0] *)
  rasterize : list vec4 -> list face -> Z -> Z -> outcome (grid rast_px);
  (* nvdiffrast.torch.interpolate(attr, rast, tri)[0] *)
  interpolate_uv : list vec2 -> grid rast_px -> list face -> outcome (grid vec2);
  interpolate_normal : list vec3 -> grid rast_px -> list face -> outcome (grid vec3);
  (* nvdiffrast.torch.texture(tex, uv, filter_mode='linear')[0, 0] *)
  texture : grid vec3 -> list vec2 -> outcome (list vec3);
  (* kal.ops.coords.spherical2cartesian *)
  spherical2cartesian : list F32.t -> list F32.t -> outcome (list F32.t * list F32.t * list F32.t);
  (* kal.render.lighting.sg_diffuse_inner_product *)
  sg_diffuse_inner_product :
    list vec3 -> list vec3 -> list F32.t -> list vec3 -> list vec3 -> outcome (list vec3);
  (* kal.render.lighting.sg_warp_specular_term *)
  sg_warp_specular_term :
    list vec3 -> list vec3 -> list F32.t -> list vec3 -> list F32.t -> list vec3 -> list vec3
    -> outcome (list vec3);
  (* torch.linalg.norm(v, dim=-1) of one row *)
  vector_norm : vec3 -> F32.t;
  (* x % 1. *)
  remainder_one : F32.t -> F32.t;
  (* what a cast to an integer dtype makes of a NaN or an infinity *)
  int_of_nonfinite : F32.t -> Z
}.

(** The same library with other services where only the specular pass of
    [base_render] calls it: the camera's ray transform and field of view,
    the specular term and the norm of a ray. *)
Definition with_specular_services (B : Backend)
    (inv_rays : Camera -> list vec3 -> list vec3 -> outcome (list vec3 * list vec3))
    (tan_fov : Camera -> fov_axis -> outcome F32.t)
    (specular_term : list vec3 -> list vec3 -> list F32.t -> list vec3 -> list F32.t
                     -> list vec3 -> list vec3 -> outcome (list vec3))
    (norm : vec3 -> F32.t) : Backend := {|
  extrinsics_transform := @extrinsics_transform B;
  inv_transform_rays := inv_rays;
  projection_matrix := @projection_matrix B;
  tan_half_fov := tan_fov;
  index_vertices_by_faces := @index_vertices_by_faces B;
  face_normals := @face_normals B;
  mesh_face_normals := @mesh_face_normals B;
  up_to_homogeneous := @up_to_homogeneous B;
  matmul := @matmul B;
  rasterize := @rasterize B;
  interpolate_uv := @interpolate_uv B;
  interpolate_normal := @interpolate_normal B;
  texture := @texture B;
  spherical2cartesian := @spherical2cartesian B;
  sg_diffuse_inner_product := @sg_diffuse_inner_product B;
  sg_warp_specular_term := specular_term;
  vector_norm := norm;
  remainder_one := @remainder_one B;
  int_of_nonfinite := @int_of_nonfinite B
|}.

Section Notebook.
Context `{Backend}.

(** [t.long()] on a float tensor: toward zero, wrapping in 64 bits. *)
Definition to_long (x : F32.t) : Z :=
  wrap_signed 64 (default (int_of_nonfinite x) (F32.trunc x)).

(** [t.to(torch.uint8)] on a float tensor: toward zero, then the low
    eight bits. *)
Definition to_uint8 (x : F32.t) : Z :=
  default (int_of_nonfinite x) (F32.trunc x) mod 256.

(** *** Load Mesh information

    [mesh.uvs = torch.nn.functional.pad(mesh.uvs, (0, 0, 0, 1))]
    [mesh.face_uvs_idx[mesh.face_uvs_idx == -1] = mesh.uvs.shape[1] - 1] *)
Definition pad_uvs (m : Mesh) : Mesh :=
  {| vertices := vertices m; faces := faces m; normals := normals m;
     face_normals_idx := face_normals_idx m;
     uvs := uvs m ++ [(F32.zero, F32.zero)];
     face_uvs_idx := face_uvs_idx m;
     material_assignments := material_assignments m |}.

Definition remap_missing_uvs (m : Mesh) : Mesh :=
  let last := Z.of_nat (length (uvs m)) - 1 in
  {| vertices := vertices m; faces := faces m; normals := normals m;
     face_normals_idx := face_normals_idx m;
     uvs := uvs m;
     face_uvs_idx := face_map (fun i => if i =? -1 then last else i) <$> face_uvs_idx m;
     material_assignments := material_assignments m |}.

Definition preprocess_mesh (m : Mesh) : Mesh := remap_missing_uvs (pad_uvs m).

(** *** Rendering a mesh *)

(** [torch.meshgrid(arange(height), arange(width), indexing='ij')],
    flattened: the (y, x) of every pixel, row-major. *)
Definition pixel_coords (h w : nat) : list (Z * Z) :=
  y ← seqZ 0 (Z.of_nat h); x ← seqZ 0 (Z.of_nat w); [(y, x)].

Definition generate_pinhole_rays_dir (camera : camref) (height width : Z) : M (grid vec3) :=
  if (height <? 0) || (width <? 0) then call (Raise (RuntimeError "arange"))
  else
    let h := Z.to_nat height in
    let w := Z.to_nat width in
    let two := F32.of_Z 2 in
    cam ← read_camera camera;
    let x0 := cam_x0 cam in
    cam ← read_camera camera;
    let y0 := cam_y0 cam in
    let ndc (yx : Z * Z) : F32.t * F32.t :=
      let pixel_x := F32.add (F32.of_Z yx.2) F32.half in
      let pixel_y := F32.add (F32.of_Z yx.1) F32.half in
      let pixel_x := F32.sub pixel_x x0 in
      let pixel_y := F32.add pixel_y y0 in
      let pixel_x := F32.sub (F32.mul two (F32.div pixel_x (F32.of_Z width))) F32.one in
      let pixel_y := F32.sub (F32.mul two (F32.div pixel_y (F32.of_Z height))) F32.one in
      (pixel_x, pixel_y) in
    cam ← read_camera camera;
    tan_h ← call (tan_half_fov cam HORIZONTAL);
    cam ← read_camera camera;
    tan_v ← call (tan_half_fov cam VERTICAL);
    let ray_dir : list vec3 :=
      (fun yx => let '(pixel_x, pixel_y) := ndc yx in
                 (F32.mul pixel_x tan_h, F32.mul (F32.opp pixel_y) tan_v, F32.opp F32.one))
        <$> pixel_coords h w in
    let ray_orig : list vec3 := (fun _ => vec3_zero) <$> ray_dir in
    cam ← read_camera camera;
    '(ray_orig, ray_dir) ← call (inv_transform_rays cam ray_orig ray_dir);
    let ray_dir := (fun d => vec3_map (fun c => F32.div c (vector_norm d)) d) <$> ray_dir in
    if bool_decide (length ray_dir = (h * w)%nat) then mret (Grid h w ray_dir)
    else call (Raise (RuntimeError "reshape")).

(** The loop over the materials of [base_render]: pixels whose material is
    [i] take their albedo from the [i]-th diffuse and specular map. *)
Fixpoint texture_materials (i : Z) (materials : list (grid vec3))
    (specular_maps : list (grid vec3)) (uv_map : grid vec2) (im_material_idx : grid Z)
    (albedo spec_albedo : grid vec3) : outcome (grid vec3 * grid vec3) :=
  match materials with
  | [] => Ok (albedo, spec_albedo)
  | material :: rest =>
      let mask := grid_map (fun m => m =? i) im_material_idx in
      _texcoords ← masked_select uv_map mask;
      let _texcoords := (fun uv : vec2 => (uv.1, F32.opp uv.2)) <$> _texcoords in
      '(albedo, spec_albedo) ←
        (if bool_decide (0 < length _texcoords)%nat then
           pixel_val ← texture material _texcoords;
           albedo ← masked_assign albedo mask pixel_val;
           specular ← py_index specular_maps i;
           pixel_val ← texture specular _texcoords;
           spec_albedo ← masked_assign spec_albedo mask pixel_val;
           Ok (albedo, spec_albedo)
         else Ok (albedo, spec_albedo));
      texture_materials (i + 1) rest specular_maps uv_map im_material_idx albedo spec_albedo
  end.

(** [torch.arange(n * 3).reshape(-1, 3)] *)
Definition arange_faces (n : nat) : list face :=
  (fun k => (3 * k, 3 * k + 1, 3 * k + 2)) <$> seqZ 0 (Z.of_nat n).

(** The last line of [base_render]:
    [(torch.clamp(img * hard_mask, 0., 1.)[0] * 255.).to(torch.uint8)] *)
Definition to_display (px : vec3) (covered : bool) : rgb8 :=
  let '(r, g, b) :=
    vec3_map (fun c => F32.mul (F32.clamp F32.zero F32.one (F32.mul c (F32.of_bool covered)))
                               (F32.of_Z 255)) px in
  (to_uint8 r, to_uint8 g, to_uint8 b).

Definition base_render (mesh : Mesh) (camera : camref) (height width : Z) : M RenderResult :=
  cam ← read_camera camera;
  vertices_camera ← call (extrinsics_transform cam (vertices mesh));
  face_vertices_camera ← call (index_vertices_by_faces vertices_camera (faces mesh));
  face_normals_cam ← call (face_normals face_vertices_camera);
  let face_normals_z := (fun n : vec3 => n.2) <$> face_normals_cam in
  cam ← read_camera camera;
  proj ← call (projection_matrix cam);
  homogeneous_vecs ← call (up_to_homogeneous vertices_camera);
  vertices_clip ← call (matmul proj homogeneous_vecs);
  rast ← call (rasterize vertices_clip (face_map to_int32 <$> faces mesh) height width);
  (* the rasterizer's rows go bottom-up, the display's top-down *)
  let rast0 := grid_flip rast in
  let hard_mask := grid_map (fun p => F32.nonzero (tri_id p)) rast0 in
  let face_idx := grid_map (fun p => to_long (tri_id p) - 1) rast0 in
  uv_map ← call (interpolate_uv (uvs mesh) rast0 (face_map to_int32 <$> face_uvs_idx mesh));
  let uv_map := grid_map (fun uv : vec2 => (remainder_one uv.1, remainder_one uv.2)) uv_map in
  im_world_normals ←
    match normals mesh, face_normals_idx mesh with
    | Some normals, Some idx =>
        call (interpolate_normal normals rast0 (face_map to_int32 <$> idx))
    | _, _ =>
        fn ← call (mesh_face_normals mesh);
        call (interpolate_normal (fn ≫= (fun t => [t.1.1; t.1.2; t.2])) rast0
                (arange_faces (length (faces mesh))))
    end;
  im_cam_normals ← call (grid_mapM (fun f =>
      z ← py_index face_normals_z f;
      Ok (F32.mul z (F32.of_bool (negb (f =? -1))))) face_idx);
  im_world_normals ← call (grid_zip (fun n s => vec3_map (fun c => F32.mul c (F32.sign s)) n)
                             im_world_normals im_cam_normals);
  albedo ← call (grid_zeros height width);
  spec_albedo ← call (grid_zeros height width);
  (* a mesh can have several materials: each pixel reads its own *)
  im_material_idx ← call (grid_mapM (py_index (material_assignments mesh)) face_idx);
  im_material_idx ← call (grid_zip (fun m f => if f =? -1 then -1 else m)
                            im_material_idx face_idx);
  materials ← read_global diffuse_maps;
  speculars ← read_global specular_maps;
  '(albedo, spec_albedo) ← call (texture_materials 0 materials speculars uv_map
                                   im_material_idx albedo spec_albedo);
  img ← call (grid_zeros height width);
  az ← read_global azimuth;
  el ← read_global elevation;
  '(sg_x, sg_y, sg_z) ← call (spherical2cartesian az el);
  let directions : list vec3 := zip (zip sg_x sg_z) sg_y in
  im_world_normals ← call (masked_select im_world_normals hard_mask);
  amp ← read_global amplitude;
  sharp ← read_global sharpness;
  lit_albedo ← call (masked_select albedo hard_mask);
  diffuse_effect ← call (sg_diffuse_inner_product amp directions sharp im_world_normals lit_albedo);
  img ← call (masked_assign img hard_mask diffuse_effect);
  enabled ← read_global apply_specular;
  img ←
    (if enabled : bool then
       rays_d ← generate_pinhole_rays_dir camera height width;
       amp ← read_global amplitude;
       sharp ← read_global sharpness;
       view ← call (masked_select rays_d hard_mask);
       lit_spec ← call (masked_select spec_albedo hard_mask);
       specular_effect ← call (sg_warp_specular_term amp directions sharp im_world_normals
                                 (replicate (length im_world_normals) F32.half)
                                 (vec3_map F32.opp <$> view) lit_spec);
       call (masked_add img hard_mask specular_effect)
     else mret img);
  (* [img] is what gets displayed, [face_idx] is only printed on query *)
  shown ← call (grid_zip to_display img hard_mask);
  mret {| img := shown; face_idx := face_idx |}.

(** Render using the camera's own dimensions: the function handed to the
    visualizer. *)
Definition render (camera : camref) : M RenderResult :=
  mesh ← read_global mesh;
  cam ← read_camera camera;
  let height := cam_height cam in
  cam ← read_camera camera;
  let width := cam_width cam in
  base_render mesh camera height width.

(** Render with lower dimensions: the "fast" rendering used while the mouse
    moves. *)
Definition lowres_render (camera : camref) : M RenderResult :=
  mesh ← read_global mesh;
  cam ← read_camera camera;
  height ← call (py_truediv (cam_height cam) 4 ≫= py_int);
  cam ← read_camera camera;
  width ← call (py_truediv (cam_width cam) 4 ≫= py_int);
  base_render mesh camera height width.

(** *** The visualizer object *)

(** Modelled from the spec: the output area [visualizer.out] (an output
    widget owned by the visualizer class, which is not under src/).  A
    block run under [with visualizer.out:] has its exception captured and
    shown in the output area instead of propagating; control then
    continues after the block.  [Some a] is a block that ran to its
    [return a], [None] a block that was left by a captured exception. *)
Definition with_out {A : Type} (body : M A) : M (option A) := fun w =>
  match body w with
  | (Ok a, w') => (Ok (Some a), w')
  | (Raise e, w') => (Ok None, set_vis (log_out e) w')
  end.

(** Modelled from the spec: the render dispatcher of the visualizer class
    (not under src/).  It takes the current camera, invokes the render
    callback on it and writes the resulting image to the canvas; the
    request is recorded with its resolution. *)
Definition dispatch (request : frame_request) (callback : camref -> M RenderResult) : M unit :=
  modify (set_vis (log_frame request));;
  output ← callback VisualizerCamera;
  modify (set_vis (set_canvas (img output))).

(** The visualizers of the notebook are built with [render] as the render
    callback and [fast_render=lowres_render]. *)
Definition render_update : M unit := dispatch FullFrame render.
Definition fast_render_update : M unit := dispatch FastFrame lowres_render.

(** Modelled from the spec: the frame scheduler of the visualizer class
    (not under src/).  A request it decides to serve goes to the render
    dispatcher, at full or at reduced resolution; if the render callback
    raises, the error is captured and surfaced to the output area, and the
    scheduler remains usable.  Which requests it serves and which it drops
    to keep the frame rate is its own decision: [None] is a dropped
    request. *)
Definition schedule (decision : option frame_request) : M unit :=
  match decision with
  | Some FullFrame => with_out render_update;; mret tt
  | Some FastFrame => with_out fast_render_update;; mret tt
  | None => mret tt
  end.

(** Modelled from the spec: the event router of the visualizer class (not
    under src/).  On each event the user-supplied additional handler, if
    any, runs first; a falsy result skips the default handling; otherwise
    the default camera-control mapping is applied through the camera
    controller and a frame is requested from the scheduler.  The mapping
    and the scheduling decision are the visualizer's own and stay
    parameters. *)
Definition handle_event (additional_event_handler : option (event -> M pyval))
    (camera_control : event -> Camera -> Camera) (request_frame : event -> M unit)
    (ev : event) : M unit :=
  process_event ←
    match additional_event_handler with
    | Some handler => result ← handler ev; mret (truthy result)
    | None => mret true
    end;
  if process_event : bool then
    modify (set_vis (fun v => set_vis_camera (camera_control ev (vis_camera v)) v));;
    request_frame ev
  else mret tt.

(** *** Adding events and other widgets *)

(** Event handler provided to the visualizer.  The visualizer passes
    itself as first argument; there is one visualizer in the world. *)
Definition additional_event_handler (ev : event) : M pyval :=
  returned ← with_out (
    type ← call (getitem ev "type");
    is_space ←
      (if py_eq_str type "keydown" then
         key ← call (getitem ev "key"); mret (py_eq_str key " ")
       else mret false);
    if is_space : bool then
      flag ← read_global apply_specular;
      modify (set_nb (set_apply_specular (negb flag)));;
      render_update;;
      mret (PyBool false)
    else mret (PyBool true));
  mret (default PyNone returned).

(** A float32 tensor with every element set to the value, rounded to
    binary32. *)
Definition filled (value : F64.t) (t : list F32.t) : list F32.t :=
  (fun _ => F64.to_f32 value) <$> t.
Definition filled_rows (value : F64.t) (t : list vec3) : list vec3 :=
  (fun _ => (F64.to_f32 value, F64.to_f32 value, F64.to_f32 value)) <$> t.

(** What torch raises for a Python float beyond the float32 range. *)
Definition overflow_error : exn :=
  RuntimeError "value cannot be converted to type float without overflow".

(** [t[:] = value] on a float32 tensor: the value is converted to float32
    first, which raises when it does not fit and leaves the tensor as it
    was; otherwise every element becomes the converted value. *)
Definition fill (value : F64.t) (t : list F32.t) : outcome (list F32.t) :=
  if F64.fits_f32 value then Ok (filled value t) else Raise overflow_error.
Definition fill_rows (value : F64.t) (t : list vec3) : outcome (list vec3) :=
  if F64.fits_f32 value then Ok (filled_rows value t) else Raise overflow_error.

(** The sliders callback. *)
Definition sliders_callback (new_elevation new_azimuth new_amplitude new_sharpness : F64.t)
  : M pyval :=
  with_out (
    t ← read_global elevation; t ← call (fill new_elevation t);
    modify (set_nb (set_elevation t));;
    t ← read_global azimuth; t ← call (fill new_azimuth t);
    modify (set_nb (set_azimuth t));;
    t ← read_global amplitude; t ← call (fill_rows new_amplitude t);
    modify (set_nb (set_amplitude t));;
    t ← read_global sharpness; t ← call (fill new_sharpness t);
    modify (set_nb (set_sharpness t));;
    (* this is how a new update is requested *)
    render_update);;
  mret PyNone.
End Notebook.

Section View.
Context `{Backend}.

(** The clip-space vertices [base_render] hands to the rasterizer: the
    mesh in camera coordinates, made homogeneous and projected. *)
Definition clip_vertices (mesh : Mesh) (cam : Camera) : outcome (list vec4) :=
  vertices_camera ← extrinsics_transform cam (vertices mesh);
  proj ← projection_matrix cam;
  homogeneous_vecs ← up_to_homogeneous vertices_camera;
  matmul proj homogeneous_vecs.
End View.

(** ** The materials of the mesh *)

(** A material as the loader returns it, a dict: its colours ([Kd], [Ks],
    ...) are float vectors, its textures ([map_Kd], [map_Ks], ...) are RGB
    images of uint8. *)
Record material : Type := {
  colours : gmap string (list F32.t);
  images : gmap string (grid rgb8)
}.

(** [t.float() / 255.] on one uint8 value. *)
Definition texel (c : Z) : F32.t := F32.div (F32.of_Z c) (F32.of_Z 255).

(** [m[map_key].unsqueeze(0).cuda().float() / 255. if map_key in m else
     m[colour_key].reshape(1, 1, 1, 3).cuda()] *)
Definition texture_map (map_key colour_key : string) (m : material) : outcome (grid vec3) :=
  match images m !! map_key with
  | Some image =>
      Ok (grid_map (fun c : rgb8 => (texel c.1.1, texel c.1.2, texel c.2)) image)
  | None =>
      match colours m !! colour_key with
      | Some [r; g; b] => Ok (Grid 1 1 [(r, g, b)])
      | Some _ => Raise (RuntimeError "reshape")
      | None => Raise (KeyError colour_key)
      end
  end.

(** The two list comprehensions over [mesh.materials[0]] that define
    [diffuse_maps] and [specular_maps]. *)
Definition build_diffuse_maps (materials : list material) : outcome (list (grid vec3)) :=
  mapM (texture_map "map_Kd" "Kd") materials.
Definition build_specular_maps (materials : list material) : outcome (list (grid vec3)) :=
  mapM (texture_map "map_Ks" "Ks") materials.

(** ** A small scene to run the notebook on *)

Module Demo.
(** A backend that draws one triangle over the first column of the image
    and lights it with constant colours: the diffuse term is out of the
    displayable range on purpose (2, 1/4 and a NaN). *)
Definition first_column (height width : Z) : list rast_px :=
  (fun yx : Z * Z =>
     RastPx F32.zero F32.zero F32.zero (if yx.2 =? 0 then F32.one else F32.zero))
    <$> pixel_coords (Z.to_nat height) (Z.to_nat width).

Definition up : vec3 := (F32.zero, F32.zero, F32.one).

Definition backend : Backend := {|
  extrinsics_transform := fun _ v => Ok v;
  inv_transform_rays := fun _ o d => Ok (o, d);
  projection_matrix := fun _ => Ok [];
  tan_half_fov := fun _ _ => Ok F32.one;
  index_vertices_by_faces := fun _ _ => Ok [];
  face_normals := fun _ => Ok [up];
  mesh_face_normals := fun _ => Ok [];
  up_to_homogeneous := fun _ => Ok [];
  matmul := fun _ _ => Ok [];
  rasterize := fun _ _ height width =>
    if (height <? 1) || (width <? 1) then Raise (RuntimeError "resolution")
    else Ok (Grid (Z.to_nat height) (Z.to_nat width) (first_column height width));
  interpolate_uv := fun _ r _ => Ok (grid_map (fun _ => (F32.zero, F32.zero)) r);
  interpolate_normal := fun _ r _ => Ok (grid_map (fun _ => up) r);
  texture := fun _ uv => Ok ((fun _ => (F32.one, F32.one, F32.one)) <$> uv);
  spherical2cartesian := fun az el => Ok (az, el, el);
  sg_diffuse_inner_product := fun _ _ _ n _ =>
    Ok ((fun _ => (F32.of_Z 2, F32.div F32.one (F32.of_Z 4), SpecFloat.S754_nan)) <$> n);
  sg_warp_specular_term := fun _ _ _ n _ _ _ =>
    Ok ((fun _ => (F32.half, F32.half, F32.half)) <$> n);
  vector_norm := fun _ => F32.one;
  remainder_one := fun x => x;
  int_of_nonfinite := fun _ => 0
|}.

(** The same backend with a rasterizer that always fails. *)
Definition broken_backend : Backend := {|
  extrinsics_transform := @extrinsics_transform backend;
  inv_transform_rays := @inv_transform_rays backend;
  projection_matrix := @projection_matrix backend;
  tan_half_fov := @tan_half_fov backend;
  index_vertices_by_faces := @index_vertices_by_faces backend;
  face_normals := @face_normals backend;
  mesh_face_normals := @mesh_face_normals backend;
  up_to_homogeneous := @up_to_homogeneous backend;
  matmul := @matmul backend;
  rasterize := fun _ _ _ _ => Raise (RuntimeError "out of memory");
  interpolate_uv := @interpolate_uv backend;
  interpolate_normal := @interpolate_normal backend;
  texture := @texture backend;
  spherical2cartesian := @spherical2cartesian backend;
  sg_diffuse_inner_product := @sg_diffuse_inner_product backend;
  sg_warp_specular_term := @sg_warp_specular_term backend;
  vector_norm := @vector_norm backend;
  remainder_one := @remainder_one backend;
  int_of_nonfinite := @int_of_nonfinite backend
|}.

(** The same backend with a rasterizer that takes at most 2^52 rows, and
    has no memory for the resolutions it takes. *)
Definition limited_backend : Backend := {|
  extrinsics_transform := @extrinsics_transform backend;
  inv_transform_rays := @inv_transform_rays backend;
  projection_matrix := @projection_matrix backend;
  tan_half_fov := @tan_half_fov backend;
  index_vertices_by_faces := @index_vertices_by_faces backend;
  face_normals := @face_normals backend;
  mesh_face_normals := @mesh_face_normals backend;
  up_to_homogeneous := @up_to_homogeneous backend;
  matmul := @matmul backend;
  rasterize := fun _ _ height _ =>
    if 2 ^ 52 <? height then Raise (RuntimeError "resolution")
    else Raise (RuntimeError "out of memory");
  interpolate_uv := @interpolate_uv backend;
  interpolate_normal := @interpolate_normal backend;
  texture := @texture backend;
  spherical2cartesian := @spherical2cartesian backend;
  sg_diffuse_inner_product := @sg_diffuse_inner_product backend;
  sg_warp_specular_term := @sg_warp_specular_term backend;
  vector_norm := @vector_norm backend;
  remainder_one := @remainder_one backend;
  int_of_nonfinite := @int_of_nonfinite backend
|}.

Definition triangle : Mesh := {|
  vertices := [vec3_zero; up; up];
  faces := [(0, 1, 2)];
  normals := Some [up];
  face_normals_idx := Some [(0, 0, 0)];
  uvs := [(F32.zero, F32.zero)];
  face_uvs_idx := [(0, -1, -1)];
  material_assignments := [0]
|}.

(** A mesh as the loader returns it for a file that counts its texture
    coordinates from the end (index -1 in the file, -2 once loaded). *)
Definition relative : Mesh := {|
  vertices := [vec3_zero; up; up];
  faces := [(0, 1, 2)];
  normals := None;
  face_normals_idx := None;
  uvs := [(F32.zero, F32.zero)];
  face_uvs_idx := [(-2, -2, -2)];
  material_assignments := [0]
|}.

Definition white : grid vec3 := Grid 1 1 [(F32.one, F32.one, F32.one)].

Definition eye (height width : Z) : Camera := {|
  cam_height := height; cam_width := width;
  cam_x0 := F32.zero; cam_y0 := F32.zero;
  cam_extrinsics := []; cam_intrinsics := []
|}.

Definition globals : Globals := {|
  mesh := preprocess_mesh triangle;
  diffuse_maps := [white];
  specular_maps := [white];
  camera := eye 8 12;
  azimuth := [F32.zero];
  elevation := [F32.one];
  amplitude := [(F32.of_Z 3, F32.of_Z 3, F32.of_Z 3)];
  sharpness := [F32.of_Z 5];
  apply_specular := true
|}.

Definition world : World := {|
  nb := globals;
  vis := {| vis_camera := eye 2 3; canvas := None; out := []; frames := [] |}
|}.

(** What the full render of [world] returns. *)
Definition rendered : RenderResult :=
  match (@render backend VisualizerCamera world).1 with
  | Ok r => r
  | Raise _ => {| img := Grid 0 0 []; face_idx := Grid 0 0 [] |}
  end.

(** A world whose visualizer camera is 2^54 + 3 pixels high. *)
Definition huge : World :=
  set_vis (set_vis_camera (eye (2 ^ 54 + 3) 4)) world.

(** The world once the first frame is on the canvas. *)
Definition shown : World :=
  set_vis (set_canvas (img rendered)) world.

(** Slider values: 5.0 and 0.1 (the double nearest to it). *)
Definition five : F64.t := F64.of_Z 5.
Definition tenth : F64.t := F64.div (F64.of_Z 1) (F64.of_Z 10).

(** 1e39, a double beyond the float32 range. *)
Definition beyond : F64.t := F64.of_Z (10 ^ 39).

(** Two materials: one with textures, one with plain colours only. *)
Definition painted : material := {|
  colours := {[ "Kd" := [F32.one; F32.one; F32.one] ]};
  images := {[ "map_Kd" := Grid 1 2 [(0, 128, 255); (255, 0, 0)];
               "map_Ks" := Grid 1 1 [(51, 51, 51)] ]}
|}.
Definition plain : material := {|
  colours := {[ "Kd" := [F32.half; F32.zero; F32.one];
                "Ks" := [F32.zero; F32.zero; F32.zero] ]};
  images := ∅
|}.

(** A material that has a diffuse colour and no specular entry at all. *)
Definition dull : material := {|
  colours := {[ "Kd" := [F32.half; F32.half; F32.half] ]};
  images := ∅
|}.

(** A two-pixel image whose first pixel shows material 0 and whose second
    pixel is uncovered. *)
Definition two_pixels : grid Z := Grid 1 2 [0; -1].
Definition two_uvs : grid vec2 := Grid 1 2 [(F32.zero, F32.zero); (F32.half, F32.half)].
Definition two_black : grid vec3 := Grid 1 2 [vec3_zero; vec3_zero].

(** The demo backend without its specular services: each of them fails. *)
Definition diffuse_only_backend : Backend :=
  with_specular_services Demo.backend
    (fun _ _ _ => Raise (RuntimeError "no rays"))
    (fun _ _ => Raise (RuntimeError "no field of view"))
    (fun _ _ _ _ _ _ _ => Raise (RuntimeError "no specular term"))
    (fun _ => SpecFloat.S754_nan).

(** The demo world with the specular flag switched off. *)
Definition matte : World := set_nb (set_apply_specular false) Demo.world.

(** Events as the widget toolkit delivers them. *)
Definition keydown (key : string) : event :=
  {[ "type" := PyStr "keydown"; "key" := PyStr key ]}.
Definition mousemove : event :=
  {[ "type" := PyStr "mousemove"; "buttons" := PyInt 1 ]}.
End Demo.

(** ** Vocabulary of the statements *)

(** A call that leaves every notebook object as it found it. *)
Definition readonly {A : Type} (m : M A) : Prop := forall w, (m w).2 = w.

(** The coverage mask of a rasterizer output, in display orientation:
    [hard_mask] of [base_render]. *)
Definition coverage (rast : grid rast_px) : grid bool :=
  grid_map (fun p => F32.nonzero (tri_id p)) (grid_flip rast).

Definition is_uint8 (n : Z) : Prop := 0 <= n <= 255.

(** A batch-of-one image tensor of [height] by [width] pixels. *)
Definition has_shape {P : Type} (g : grid P) (height width : Z) : Prop :=
  Z.of_nat (grows g) = height /\ Z.of_nat (gcols g) = width /\ grid_wf g.

(** The three uv indices of a face. *)
Definition face_entries (f : face) : list Z := [f.1.1; f.1.2; f.2].

(** Every index of [face_uvs_idx] points into [uvs]. *)
Definition uv_indices_valid (m : Mesh) : Prop :=
  forall f i, f ∈ face_uvs_idx m -> i ∈ face_entries f ->
    0 <= i < Z.of_nat (length (uvs m)).

(** Every index of [face_uvs_idx] either points into [uvs] or is the
    sentinel -1 of a face without uvs. *)
Definition uv_indices_loaded (m : Mesh) : Prop :=
  forall f i, f ∈ face_uvs_idx m -> i ∈ face_entries f ->
    i = -1 \/ 0 <= i < Z.of_nat (length (uvs m)).

(** A keydown event whose key is the space character. *)
Definition space_keydown (ev : event) : bool :=
  match ev !! "type", ev !! "key" with
  | Some type, Some key => py_eq_str type "keydown" && py_eq_str key " "
  | _, _ => false
  end.

(** An event as the widget toolkit delivers it: it names its type, and a
    keydown event names its key. *)
Definition ui_event (ev : event) : bool :=
  match ev !! "type" with
  | Some type => if py_eq_str type "keydown" then bool_decide (is_Some (ev !! "key")) else true
  | None => false
  end.

Section EventLoop.
Context `{Backend}.

(** What the widgets deliver to the notebook's two callbacks. *)
Inductive ui_input : Type :=
| KeyOrPointer (ev : event)
| SliderChange (new_elevation new_azimuth new_amplitude new_sharpness : F64.t).

Definition react (input : ui_input) : M pyval :=
  match input with
  | KeyOrPointer ev => additional_event_handler ev
  | SliderChange e a m s => sliders_callback e a m s
  end.

(** Modelled from the spec: the single-threaded UI event queue (the widget
    toolkit's, not under src/).  Inputs are served in arrival order; an
    exception that escapes a callback ends the loop. *)
Fixpoint event_loop (inputs : list ui_input) : M unit :=
  match inputs with
  | [] => mret tt
  | input :: rest => react input;; event_loop rest
  end.

(** The four values of a slider change all fit float32 tensors. *)
Definition storable (new_elevation new_azimuth new_amplitude new_sharpness : F64.t) : bool :=
  F64.fits_f32 new_elevation && F64.fits_f32 new_azimuth
  && F64.fits_f32 new_amplitude && F64.fits_f32 new_sharpness.

(** The world in which the sliders callback asks for its frame: the four
    lighting parameters hold the new values and the request is recorded. *)
Definition after_sliders (new_elevation new_azimuth new_amplitude new_sharpness : F64.t)
    (w : World) : World :=
  set_vis (log_frame FullFrame)
    (set_nb (fun g =>
       set_sharpness (filled new_sharpness (sharpness g))
         (set_amplitude (filled_rows new_amplitude (amplitude g))
            (set_azimuth (filled new_azimuth (azimuth g))
               (set_elevation (filled new_elevation (elevation g)) g)))) w).

(** The notebook's variables once the assignments of the sliders callback
    have run, up to the first value that does not fit. *)
Definition slider_writes (new_elevation new_azimuth new_amplitude new_sharpness : F64.t)
    (g : Globals) : Globals :=
  if F64.fits_f32 new_elevation then
    let g := set_elevation (filled new_elevation (elevation g)) g in
    if F64.fits_f32 new_azimuth then
      let g := set_azimuth (filled new_azimuth (azimuth g)) g in
      if F64.fits_f32 new_amplitude then
        let g := set_amplitude (filled_rows new_amplitude (amplitude g)) g in
        if F64.fits_f32 new_sharpness then set_sharpness (filled new_sharpness (sharpness g)) g
        else g
      else g
    else g
  else g.

(** The world in which the space key asks for its frame: the flag is
    flipped and the request is recorded. *)
Definition after_toggle (w : World) : World :=
  set_vis (log_frame FullFrame)
    (set_nb (fun g => set_apply_specular (negb (apply_specular g)) g) w).

(** The render callback behind a frame request. *)
Definition callback (request : frame_request) : camref -> M RenderResult :=
  match request with
  | FullFrame => render
  | FastFrame => lowres_render
  end.

Section Served.
Variable camera_control : event -> Camera -> Camera.
Variable decide : event -> option frame_request.

(** An input as the visualizer of the last cell serves it: an event goes
    through the event router, with the notebook's handler in front and
    the frame scheduler behind; a slider change goes to the sliders
    callback.  The camera mapping and the scheduler's decisions are the
    visualizer's own. *)
Definition serve (input : ui_input) : M unit :=
  match input with
  | KeyOrPointer ev =>
      handle_event (Some additional_event_handler) camera_control
        (fun ev => schedule (decide ev)) ev
  | SliderChange e a m s => sliders_callback e a m s;; mret tt
  end.

(** Modelled from the spec: the UI event queue again, with every input
    served through the visualizer. *)
Fixpoint session (inputs : list ui_input) : M unit :=
  match inputs with
  | [] => mret tt
  | input :: rest => serve input;; session rest
  end.

(** The frame that serving an input renders, if any, and the world in
    which the render callback runs: the space key and the sliders ask for
    a full frame themselves; any other event the toolkit delivers moves
    the camera first and gets the frame the scheduler decides on. *)
Definition rendering (input : ui_input) (w : World) : option (frame_request * World) :=
  match input with
  | KeyOrPointer ev =>
      if space_keydown ev then Some (FullFrame, after_toggle w)
      else if ui_event ev then
        match decide ev with
        | Some request =>
            Some (request,
                  set_vis (log_frame request)
                    (set_vis (fun v => set_vis_camera (camera_control ev (vis_camera v)) v) w))
        | None => None
        end
      else None
  | SliderChange e a m s =>
      if storable e a m s then Some (FullFrame, after_sliders e a m s w) else None
  end.
End Served.
End EventLoop.

(** The keydown events for the space key among the inputs. *)
Fixpoint toggles (inputs : list ui_input) : nat :=
  match inputs with
  | [] => O
  | KeyOrPointer ev :: rest => ((if space_keydown ev then 1 else 0) + toggles rest)%nat
  | SliderChange _ _ _ _ :: rest => toggles rest
  end.

(** The slider changes among the inputs. *)
Fixpoint slider_changes (inputs : list ui_input) : nat :=
  match inputs with
  | [] => O
  | KeyOrPointer _ :: rest => slider_changes rest
  | SliderChange _ _ _ _ :: rest => S (slider_changes rest)
  end.

(** The slider changes among the inputs whose four values all fit. *)
Fixpoint stored_slider_changes (inputs : list ui_input) : nat :=
  match inputs with
  | [] => O
  | KeyOrPointer _ :: rest => stored_slider_changes rest
  | SliderChange e a m s :: rest =>
      ((if storable e a m s then 1 else 0) + stored_slider_changes rest)%nat
  end.

(** ** Calls: how they compose *)

Section Calls.
Context {A B : Type}.

Lemma M_bind_Ok (m : M A) (f : A -> M B) w b w' :
  (m ≫= f) w = (Ok b, w') ->
  exists a w1, m w = (Ok a, w1) /\ f a w1 = (Ok b, w').
Proof.
  unfold mbind, M_bind. destruct (m w) as [[a|e] w1]; [eauto | discriminate].
Qed.

Lemma call_Ok (o : outcome A) w a w' : call o w = (Ok a, w') -> o = Ok a /\ w' = w.
Proof. unfold call. intros [= -> ->]. auto. Qed.

Lemma gets_Ok (f : World -> A) w a w' : gets f w = (Ok a, w') -> a = f w /\ w' = w.
Proof. unfold gets. intros [= <- <-]. auto. Qed.

Lemma mret_Ok (a0 : A) w a w' : (mret a0 : M A) w = (Ok a, w') -> a = a0 /\ w' = w.
Proof. unfold mret, M_ret. intros [= <- <-]. auto. Qed.

Lemma readonly_ret (a : A) : readonly (mret a : M A).
Proof. intros w. reflexivity. Qed.

Lemma readonly_call (o : outcome A) : readonly (call o).
Proof. intros w. reflexivity. Qed.

Lemma readonly_gets (f : World -> A) : readonly (gets f).
Proof. intros w. reflexivity. Qed.

Lemma readonly_bind (m : M A) (f : A -> M B) :
  readonly m -> (forall a, readonly (f a)) -> readonly (m ≫= f).
Proof.
  intros Hm Hf w. unfold mbind, M_bind.
  specialize (Hm w). destruct (m w) as [[a|e] w1]; simpl in Hm; subst w1.
  - apply Hf.
  - reflexivity.
Qed.
End Calls.

Lemma readonly_read_global {A : Type} (f : Globals -> A) : readonly (read_global f).
Proof. apply readonly_gets. Qed.

Lemma readonly_read_camera (r : camref) : readonly (read_camera r).
Proof. apply readonly_gets. Qed.

Create HintDb readonly.
#[global] Hint Resolve readonly_ret readonly_call readonly_gets readonly_read_global
  readonly_read_camera : readonly.

(** One step of a read-only proof: split a sequence, or decide a branch. *)
Ltac readonly_step :=
  match goal with
  | |- readonly (_ ≫= _) => apply readonly_bind; [| intros ?]
  | |- readonly (if ?b then _ else _) => destruct b
  | |- readonly (let '(_, _) := ?p in _) => destruct p
  | |- readonly (match ?o with Some _ => _ | None => _ end) => destruct o
  | |- readonly _ => solve [auto with readonly]
  end.

Section Frame.
Context `{Backend}.

Lemma generate_pinhole_rays_dir_readonly camera height width :
  readonly (generate_pinhole_rays_dir camera height width).
Proof. unfold generate_pinhole_rays_dir. repeat readonly_step. Qed.

Lemma base_render_readonly mesh camera height width :
  readonly (base_render mesh camera height width).
Proof.
  unfold base_render.
  repeat (readonly_step || apply generate_pinhole_rays_dir_readonly).
Qed.

Lemma render_readonly camera : readonly (render camera).
Proof. unfold render. repeat (readonly_step || apply base_render_readonly). Qed.

Lemma lowres_render_readonly camera : readonly (lowres_render camera).
Proof. unfold lowres_render. repeat (readonly_step || apply base_render_readonly). Qed.
End Frame.

(** ** The render callbacks leave the cameras alone *)

Section CameraFrame.
Context `{Backend}.

(** C7.  For every camera and resolution, a call of the render callback
    leaves the camera state unchanged: [base_render], [render] (and the
    ray generator they use) only read the camera they are given, so after
    the call the world, and with it each camera object, is what it was,
    whether the call returned or raised. *)
Theorem render_callbacks_leave_camera_unchanged
    (mesh : Mesh) (camera other : camref) (height width : Z) (w : World) :
  deref other (base_render mesh camera height width w).2 = deref other w
  /\ deref other (render camera w).2 = deref other w
  /\ deref other (generate_pinhole_rays_dir camera height width w).2 = deref other w
  /\ (base_render mesh camera height width w).2 = w
  /\ (render camera w).2 = w.
Proof.
  rewrite (base_render_readonly mesh camera height width w).
  rewrite (render_readonly camera w).
  rewrite (generate_pinhole_rays_dir_readonly camera height width w).
  repeat split.
Qed.
End CameraFrame.

(** ** Masked reads and writes *)

Section Masks.
Context {P : Type}.
Implicit Types (l vals : list P) (mask : list bool).

Lemma scatter_length l mask vals : length (scatter l mask vals) = length l.
Proof.
  revert mask vals. induction l as [|x l IH]; intros [|b mask] vals; simpl; trivial.
  destruct b; [destruct vals|]; simpl; now rewrite IH.
Qed.

(** A masked write does not touch the pixels outside the mask. *)
Lemma scatter_outside l mask vals (i : nat) :
  mask !! i = Some false -> scatter l mask vals !! i = l !! i.
Proof.
  revert mask vals i. induction l as [|x l IH]; intros [|b mask] vals i Hi; simpl; trivial.
  destruct i as [|i]; simpl in Hi.
  - injection Hi as ->. reflexivity.
  - destruct b; [destruct vals|]; simpl; now apply IH.
Qed.

Lemma same_extent_spec {Q : Type} (a : grid P) (b : grid Q) :
  same_extent a b = true ->
  grows a = grows b /\ gcols a = gcols b /\ length (gpix a) = length (gpix b).
Proof.
  unfold same_extent. rewrite !andb_true_iff, !bool_decide_eq_true. tauto.
Qed.

Lemma masked_assign_Ok (g : grid P) (mask : grid bool) vals g' :
  masked_assign g mask vals = Ok g' ->
  same_extent g mask = true
  /\ grows g' = grows g /\ gcols g' = gcols g
  /\ length (gpix g') = length (gpix g)
  /\ forall i, gpix mask !! i = Some false -> gpix g' !! i = gpix g !! i.
Proof.
  unfold masked_assign. destruct (same_extent g mask); [|discriminate].
  destruct (broadcast_rows _ vals) as [vals'|e]; simpl; [|discriminate].
  intros [= <-]. simpl. repeat split.
  - apply scatter_length.
  - intros i Hi. now apply scatter_outside.
Qed.

Lemma grid_zip_Ok {Q R : Type} (f : P -> Q -> R) (a : grid P) (b : grid Q) c :
  grid_zip f a b = Ok c ->
  same_extent a b = true
  /\ grows c = grows a /\ gcols c = gcols a
  /\ gpix c = zip_with f (gpix a) (gpix b).
Proof.
  unfold grid_zip. destruct (same_extent a b); [|discriminate].
  intros [= <-]. auto.
Qed.
End Masks.

Lemma masked_add_Ok (g : grid vec3) (mask : grid bool) vals g' :
  masked_add g mask vals = Ok g' ->
  grows g' = grows g /\ gcols g' = gcols g
  /\ length (gpix g') = length (gpix g)
  /\ forall i, gpix mask !! i = Some false -> gpix g' !! i = gpix g !! i.
Proof.
  unfold masked_add.
  destruct (masked_select g mask) as [cur|e]; simpl; [|discriminate].
  destruct (broadcast_rows _ vals) as [vals'|e]; simpl; [|discriminate].
  intros E. apply masked_assign_Ok in E. tauto.
Qed.

Lemma grid_zeros_Ok (height width : Z) g :
  grid_zeros height width = Ok g ->
  0 <= height /\ 0 <= width
  /\ grows g = Z.to_nat height /\ gcols g = Z.to_nat width
  /\ gpix g = replicate (Z.to_nat height * Z.to_nat width) vec3_zero.
Proof.
  unfold grid_zeros.
  destruct (Z.ltb_spec height 0), (Z.ltb_spec width 0); simpl; try discriminate.
  intros [= <-]. simpl. repeat split; lia.
Qed.

(** ** What a returning [base_render] went through *)

(** Split [H : (m ≫= f) w = (Ok _, _)] into the step that returned and the
    rest of the sequence. *)
Ltac unbind_one H :=
  let a := fresh "v" in
  let w1 := fresh "w" in
  let Hm := fresh "E" in
  apply M_bind_Ok in H as (a & w1 & Hm & H);
  cbv beta in H;
  first [ apply call_Ok in Hm as [Hm ->] | idtac ].

Ltac unbind H :=
  repeat first
    [ unbind_one H
    | match type of H with
      | (let '(_, _) := ?p in _) _ = _ => destruct p
      end ].

Section BaseRender.
Context `{Backend}.

(** A call of [base_render] that returns has rasterized at the requested
    resolution; the lit image [lit] it built has that resolution, is black
    wherever the coverage mask is false, and the displayed image is its
    pointwise conversion. *)
Lemma base_render_Ok mesh camera height width w r w' :
  base_render mesh camera height width w = (Ok r, w') ->
  exists vertices_clip rast lit,
    rasterize vertices_clip (face_map to_int32 <$> faces mesh) height width = Ok rast
    /\ face_idx r = grid_map (fun p => to_long (tri_id p) - 1) (grid_flip rast)
    /\ 0 <= height /\ 0 <= width
    /\ grows lit = Z.to_nat height /\ gcols lit = Z.to_nat width
    /\ length (gpix lit) = (Z.to_nat height * Z.to_nat width)%nat
    /\ (forall i, gpix (coverage rast) !! i = Some false -> gpix lit !! i = Some vec3_zero)
    /\ grid_zip to_display lit (coverage rast) = Ok (img r).
Proof.
  unfold base_render. intros E. unbind E.
  apply mret_Ok in E as [-> ->].
  match goal with
  | Hz : grid_zeros height width = Ok ?z, Ha : masked_assign ?z _ _ = Ok ?g |- _ =>
      rename z into black, g into diffuse, Hz into Hblack, Ha into Hdiffuse
  end.
  match goal with
  | Hr : rasterize ?c _ _ _ = Ok ?g |- _ => rename g into rast, c into clip, Hr into Hrast
  end.
  match goal with
  | Hd : grid_zip to_display ?g _ = Ok _ |- _ => rename g into lit, Hd into Hshown
  end.
  fold (coverage rast) in *.
  apply grid_zeros_Ok in Hblack as (Hh & Hw & Hrows & Hcols & Hpix).
  apply masked_assign_Ok in Hdiffuse as (Hext & Hr1 & Hc1 & Hl1 & Hout1).
  assert (Hlit : grows lit = grows diffuse /\ gcols lit = gcols diffuse
                 /\ length (gpix lit) = length (gpix diffuse)
                 /\ forall i, gpix (coverage rast) !! i = Some false ->
                              gpix lit !! i = gpix diffuse !! i).
  { match goal with
    | Hb : (if ?b then _ else _) _ = (Ok lit, _) |- _ => destruct b; [unbind Hb|]
    end.
    - match goal with
      | Hb : call (masked_add _ _ _) _ = _ |- _ =>
          apply call_Ok in Hb as [Hb _]; apply masked_add_Ok in Hb
      end.
      assumption.
    - match goal with
      | Hb : mret _ _ = _ |- _ => apply mret_Ok in Hb as [-> _]
      end.
      auto. }
  destruct Hlit as (Hr2 & Hc2 & Hl2 & Hout2).
  exists clip, rast, lit. simpl.
  assert (Hlen : length (gpix black) = (Z.to_nat height * Z.to_nat width)%nat).
  { rewrite Hpix. apply length_replicate. }
  repeat split; try congruence; try lia.
  intros i Hi.
  rewrite (Hout2 i Hi), (Hout1 i Hi), Hpix.
  apply lookup_replicate_2.
  apply lookup_lt_Some in Hi.
  apply same_extent_spec in Hext as (_ & _ & Hext).
  rewrite <- Hlen, Hext. exact Hi.
Qed.
End BaseRender.

(** ** The returned image *)

Section ReturnedImage.
Context `{Backend}.

Lemma render_unfold camera w :
  render camera w
  = base_render (mesh (nb w)) camera (cam_height (deref camera w))
      (cam_width (deref camera w)) w.
Proof. reflexivity. Qed.

(** C4.  The renderer takes a camera, a height and a width (and the mesh)
    and returns a record of an image buffer and a face-index buffer; for
    every invocation that returns, the image has exactly the requested
    height and width (and so has the face-index buffer).  For [render] the
    requested size is the camera's. *)
Theorem base_render_image_has_requested_shape
    (mesh : Mesh) (camera : camref) (height width : Z) (w w' : World) (r : RenderResult) :
  (base_render mesh camera height width w = (Ok r, w') ->
     has_shape (img r) height width /\ has_shape (face_idx r) height width)
  /\ (render camera w = (Ok r, w') ->
     has_shape (img r) (cam_height (deref camera w)) (cam_width (deref camera w))).
Proof.
  assert (Hbase : forall mesh height width,
    base_render mesh camera height width w = (Ok r, w') ->
    has_shape (img r) height width /\ has_shape (face_idx r) height width).
  { clear. intros mesh height width E.
    apply base_render_Ok in E
      as (clip & rast & lit & _ & Hidx & Hh & Hw & Hrows & Hcols & Hlen & _ & Hshown).
    apply grid_zip_Ok in Hshown as (Hext & Hr & Hc & Hpix).
    apply same_extent_spec in Hext as (Hr' & Hc' & Hl').
    unfold coverage, grid_map in Hr', Hc', Hl'. simpl in Hr', Hc', Hl'.
    rewrite length_fmap in Hl'.
    unfold has_shape, grid_wf. rewrite Hidx. simpl.
    rewrite Hr, Hc, Hpix, length_zip_with, length_fmap.
    unfold coverage. simpl. rewrite length_fmap.
    rewrite <- Hl', <- Hr', <- Hc', Hrows, Hcols, Hlen.
    repeat split; lia. }
  split.
  - apply Hbase.
  - rewrite render_unfold. intros E. apply Hbase in E. tauto.
Qed.
End ReturnedImage.

Lemma base_render_image_has_requested_shape_witness :
  has_shape (img Demo.rendered) 2 3 /\ has_shape (face_idx Demo.rendered) 2 3.
Proof.
  apply (@base_render_image_has_requested_shape Demo.backend
           (mesh Demo.globals) VisualizerCamera 2 3 Demo.world Demo.world Demo.rendered).
  vm_compute. reflexivity.
Defined.

(** ** Uncovered pixels and the value range *)

Section Display.
Context `{Backend}.

Lemma to_uint8_range x : is_uint8 (to_uint8 x).
Proof.
  unfold is_uint8, to_uint8.
  pose proof (Z.mod_pos_bound (default (int_of_nonfinite x) (F32.trunc x)) 256).
  lia.
Qed.

Lemma to_display_range px covered red green blue :
  to_display px covered = (red, green, blue) ->
  is_uint8 red /\ is_uint8 green /\ is_uint8 blue.
Proof.
  unfold to_display. destruct px as [[x y] z]. simpl.
  intros [= <- <- <-]. auto using to_uint8_range.
Qed.

(** A pixel that was never lit and is not covered is displayed black. *)
Lemma to_display_uncovered : to_display vec3_zero false = (0, 0, 0).
Proof. reflexivity. Qed.

(** C8.  Wherever the rasterizer's coverage mask is zero the image
    returned by [base_render] is exactly 0 in its three channels, and every
    value of the image is in the unsigned 8-bit range: the displayed image
    is the lit float image, masked, clamped to [0, 1], scaled by 255 and
    converted ([to_display]). *)
Theorem base_render_uncovered_black_and_uint8
    (mesh : Mesh) (camera : camref) (height width : Z) (w w' : World) (r : RenderResult) :
  base_render mesh camera height width w = (Ok r, w') ->
  (exists vertices_clip rast lit,
      rasterize vertices_clip (face_map to_int32 <$> faces mesh) height width = Ok rast
      /\ face_idx r = grid_map (fun p => to_long (tri_id p) - 1) (grid_flip rast)
      /\ gpix (img r) = zip_with to_display (gpix lit) (gpix (coverage rast))
      /\ length (gpix (coverage rast)) = length (gpix (img r))
      /\ forall i, gpix (coverage rast) !! i = Some false ->
                   gpix (img r) !! i = Some (0, 0, 0))
  /\ (forall i red green blue, gpix (img r) !! i = Some (red, green, blue) ->
        is_uint8 red /\ is_uint8 green /\ is_uint8 blue).
Proof.
  intros E.
  apply base_render_Ok in E
    as (clip & rast & lit & Hrast & Hidx & _ & _ & _ & _ & _ & Hblack & Hshown).
  apply grid_zip_Ok in Hshown as (Hext & _ & _ & Hpix).
  apply same_extent_spec in Hext as (_ & _ & Hlen).
  split.
  - exists clip, rast, lit. repeat split; trivial.
    + rewrite Hpix, length_zip_with. lia.
    + intros i Hi. rewrite Hpix, lookup_zip_with, (Hblack i Hi), Hi. simpl.
      now rewrite to_display_uncovered.
  - intros i red green blue Hi.
    rewrite Hpix, lookup_zip_with in Hi.
    destruct (gpix lit !! i) as [px|]; [|discriminate].
    destruct (gpix (coverage rast) !! i) as [covered|]; [|discriminate].
    simpl in Hi. injection Hi as Hi. now apply to_display_range in Hi.
Qed.
End Display.

Lemma base_render_uncovered_black_and_uint8_witness :
  (exists vertices_clip rast lit,
      @rasterize Demo.backend vertices_clip
        (face_map to_int32 <$> faces (mesh Demo.globals)) 2 3 = Ok rast
      /\ face_idx Demo.rendered = grid_map (fun p => @to_long Demo.backend (tri_id p) - 1) (grid_flip rast)
      /\ gpix (img Demo.rendered) = zip_with (@to_display Demo.backend) (gpix lit) (gpix (coverage rast))
      /\ length (gpix (coverage rast)) = length (gpix (img Demo.rendered))
      /\ forall i, gpix (coverage rast) !! i = Some false ->
                   gpix (img Demo.rendered) !! i = Some (0, 0, 0))
  /\ (forall i red green blue, gpix (img Demo.rendered) !! i = Some (red, green, blue) ->
        is_uint8 red /\ is_uint8 green /\ is_uint8 blue).
Proof.
  apply (@base_render_uncovered_black_and_uint8 Demo.backend
           (mesh Demo.globals) VisualizerCamera 2 3 Demo.world Demo.world Demo.rendered).
  vm_compute. reflexivity.
Defined.

(** The demo scene, rendered: the first column is covered and lit (a value
    above 1 saturates at 255, a NaN is whatever the cast makes of it), the
    other pixels are black. *)
Example demo_rendered_pixels :
  gpix (img Demo.rendered)
  = [(255, 191, 0); (0, 0, 0); (0, 0, 0); (255, 191, 0); (0, 0, 0); (0, 0, 0)].
Proof. vm_compute. reflexivity. Qed.

(** ** Load Mesh information: the uv indices *)

Section MeshIndices.
Implicit Types (m : Mesh) (f : face) (i : Z).

Lemma preprocess_mesh_uvs m :
  uvs (preprocess_mesh m) = uvs m ++ [(F32.zero, F32.zero)].
Proof. reflexivity. Qed.

Lemma preprocess_mesh_face_uvs_idx m :
  face_uvs_idx (preprocess_mesh m)
  = face_map (fun i => if i =? -1 then Z.of_nat (length (uvs m)) else i) <$> face_uvs_idx m.
Proof.
  unfold preprocess_mesh, remap_missing_uvs. simpl.
  rewrite length_app. simpl.
  replace (Z.of_nat (length (uvs m) + 1) - 1) with (Z.of_nat (length (uvs m))) by lia.
  reflexivity.
Qed.

Lemma face_entries_map (g : Z -> Z) f i :
  i ∈ face_entries (face_map g f) -> exists j, j ∈ face_entries f /\ i = g j.
Proof.
  destruct f as [[a b] c]. unfold face_entries. simpl.
  rewrite !elem_of_cons, elem_of_nil.
  intros [->|[->|[->|[]]]]; eexists; (split; [|reflexivity]);
    rewrite !elem_of_cons; auto.
Qed.

(** C9, as amended.  If every index the loader produced is either the
    sentinel -1 or a valid index into the uv array, then after the
    preprocessing step (one padded row, every -1 remapped to its index)
    every entry of [face_uvs_idx] is a valid nonnegative index into the
    padded uv array. *)
Theorem preprocess_mesh_indices_valid (m : Mesh) :
  uv_indices_loaded m ->
  uv_indices_valid (preprocess_mesh m)
  /\ length (uvs (preprocess_mesh m)) = S (length (uvs m))
  /\ face_uvs_idx (preprocess_mesh m)
      = face_map (fun i => if i =? -1 then Z.of_nat (length (uvs m)) else i)
          <$> face_uvs_idx m.
Proof.
  intros Hloaded. split; [|split].
  - intros f i Hf Hi.
    rewrite preprocess_mesh_uvs, length_app. simpl.
    rewrite preprocess_mesh_face_uvs_idx in Hf.
    apply list_elem_of_fmap in Hf as (f0 & -> & Hf0).
    apply face_entries_map in Hi as (j & Hj & ->).
    destruct (Hloaded f0 j Hf0 Hj) as [->|Hvalid].
    + simpl. lia.
    + destruct (Z.eqb_spec j (-1)); lia.
  - rewrite preprocess_mesh_uvs, length_app. simpl. lia.
  - apply preprocess_mesh_face_uvs_idx.
Qed.

(** C9, as stated, fails: an index that is neither valid nor the sentinel
    goes through the step untouched and reaches the renderer. *)
Lemma preprocess_mesh_keeps_stray_index : ~ uv_indices_valid (preprocess_mesh Demo.relative).
Proof.
  intros Hvalid.
  assert (Hin : ((-2, -2, -2) : face) ∈ face_uvs_idx (preprocess_mesh Demo.relative)).
  { vm_compute. apply list_elem_of_here. }
  assert (Hi : -2 ∈ face_entries (-2, -2, -2)).
  { unfold face_entries. simpl. apply list_elem_of_here. }
  specialize (Hvalid _ _ Hin Hi). lia.
Qed.
End MeshIndices.

Lemma preprocess_mesh_indices_valid_witness :
  uv_indices_valid (preprocess_mesh Demo.triangle)
  /\ length (uvs (preprocess_mesh Demo.triangle)) = S (length (uvs Demo.triangle))
  /\ face_uvs_idx (preprocess_mesh Demo.triangle)
      = face_map (fun i => if i =? -1 then Z.of_nat (length (uvs Demo.triangle)) else i)
          <$> face_uvs_idx Demo.triangle.
Proof.
  apply (preprocess_mesh_indices_valid Demo.triangle).
  intros f i Hf Hi.
  apply list_elem_of_singleton in Hf as ->.
  unfold face_entries in Hi. simpl in Hi.
  rewrite !elem_of_cons, elem_of_nil in Hi.
  destruct Hi as [->|[->|[->|[]]]]; simpl; lia.
Defined.

(** ** The two callbacks, run *)

(** Unfold the sequencing of calls, leaving the calls themselves. *)
Ltac run_calls :=
  cbv beta iota delta
    [mbind M_bind mret M_ret call gets modify read_global read_camera with_out default
     option_ret option_bind].

Section Handlers.
Context `{Backend}.

Lemma dispatch_run request callback w :
  readonly (callback VisualizerCamera) ->
  dispatch request callback w
  = let w1 := set_vis (log_frame request) w in
    match (callback VisualizerCamera w1).1 with
    | Ok r => (Ok tt, set_vis (set_canvas (img r)) w1)
    | Raise e => (Raise e, w1)
    end.
Proof.
  intros Hro. unfold dispatch. run_calls.
  specialize (Hro (set_vis (log_frame request) w)).
  destruct (callback VisualizerCamera (set_vis (log_frame request) w)) as [[r|e] w2];
    simpl in *; subst w2; reflexivity.
Qed.

Lemma render_update_run w :
  render_update w
  = let w1 := set_vis (log_frame FullFrame) w in
    match (render VisualizerCamera w1).1 with
    | Ok r => (Ok tt, set_vis (set_canvas (img r)) w1)
    | Raise e => (Raise e, w1)
    end.
Proof. apply dispatch_run, render_readonly. Qed.

(** The event handler, case by case: the space key flips the flag, asks
    for a full frame and returns [False] (or falls out of the [with] block
    with [None] when the render raised); any other well-formed event
    returns [True] and touches nothing; an event without the field that is
    looked up leaves a [KeyError] in the output area. *)
Lemma additional_event_handler_run ev w :
  additional_event_handler ev w
  = if space_keydown ev then
      match (render VisualizerCamera (after_toggle w)).1 with
      | Ok r => (Ok (PyBool false), set_vis (set_canvas (img r)) (after_toggle w))
      | Raise e => (Ok PyNone, set_vis (log_out e) (after_toggle w))
      end
    else if ui_event ev then (Ok (PyBool true), w)
    else (Ok PyNone,
          set_vis (log_out (KeyError match ev !! "type" with
                                     | Some _ => "key"
                                     | None => "type"
                                     end)) w).
Proof.
  unfold additional_event_handler, space_keydown, ui_event, getitem.
  destruct (ev !! "type") as [type|]; [|reflexivity].
  run_calls.
  destruct (py_eq_str type "keydown"), (ev !! "key") as [key|]; try reflexivity.
  simpl. destruct (py_eq_str key " "); [|reflexivity].
  rewrite render_update_run. unfold after_toggle. simpl.
  destruct (render VisualizerCamera _).1; reflexivity.
Qed.

(** The sliders callback: four writes, one full frame, [None]; a value
    that does not fit stops the writes, leaves its error in the output
    area and asks for no frame. *)
Lemma sliders_callback_run e a m s w :
  sliders_callback e a m s w
  = if storable e a m s then
      let w1 := after_sliders e a m s w in
      match (render VisualizerCamera w1).1 with
      | Ok r => (Ok PyNone, set_vis (set_canvas (img r)) w1)
      | Raise err => (Ok PyNone, set_vis (log_out err) w1)
      end
    else (Ok PyNone, set_vis (log_out overflow_error) (set_nb (slider_writes e a m s) w)).
Proof.
  unfold sliders_callback, storable, slider_writes, fill, fill_rows.
  destruct (F64.fits_f32 e); [|reflexivity].
  destruct (F64.fits_f32 a); [|reflexivity].
  destruct (F64.fits_f32 m); [|reflexivity].
  destruct (F64.fits_f32 s); [|reflexivity].
  run_calls. rewrite render_update_run. unfold after_sliders. simpl.
  destruct (render VisualizerCamera _).1; reflexivity.
Qed.

Lemma react_returns input w : exists v, (react input w).1 = Ok v.
Proof.
  destruct input as [ev|e a m s]; simpl.
  - rewrite additional_event_handler_run.
    destruct (space_keydown ev); [destruct (render _ _).1|destruct (ui_event ev)]; eauto.
  - rewrite sliders_callback_run.
    destruct (storable e a m s); simpl; [destruct (render _ _).1|]; eauto.
Qed.

Lemma fast_render_update_run w :
  fast_render_update w
  = let w1 := set_vis (log_frame FastFrame) w in
    match (lowres_render VisualizerCamera w1).1 with
    | Ok r => (Ok tt, set_vis (set_canvas (img r)) w1)
    | Raise e => (Raise e, w1)
    end.
Proof. apply dispatch_run, lowres_render_readonly. Qed.

(** The scheduler never lets the error of a render out. *)
Lemma schedule_run decision w :
  schedule decision w
  = match decision with
    | Some request =>
        let w1 := set_vis (log_frame request) w in
        match (callback request VisualizerCamera w1).1 with
        | Ok r => (Ok tt, set_vis (set_canvas (img r)) w1)
        | Raise e => (Ok tt, set_vis (log_out e) w1)
        end
    | None => (Ok tt, w)
    end.
Proof.
  destruct decision as [[|]|]; [| |reflexivity]; unfold schedule; run_calls.
  - rewrite render_update_run. cbv zeta. simpl.
    destruct (render VisualizerCamera _).1; reflexivity.
  - rewrite fast_render_update_run. cbv zeta. simpl.
    destruct (lowres_render VisualizerCamera _).1; reflexivity.
Qed.
End Handlers.

(** ** The specular toggle *)

Section Toggle.
Context `{Backend}.

(** C10.  A keydown event for the space key flips [apply_specular] and
    requests one (full) render update; two such events in a row restore
    the flag; no other event changes the flag (nor requests a frame). *)
Theorem space_keydown_toggles_apply_specular (ev : event) (w : World) :
  let w1 := (additional_event_handler ev w).2 in
  let w2 := (additional_event_handler ev w1).2 in
  (space_keydown ev = true ->
     apply_specular (nb w1) = negb (apply_specular (nb w))
     /\ frames (vis w1) = frames (vis w) ++ [FullFrame]
     /\ apply_specular (nb w2) = apply_specular (nb w))
  /\ (space_keydown ev = false ->
     apply_specular (nb w1) = apply_specular (nb w)
     /\ frames (vis w1) = frames (vis w)).
Proof.
  cbv zeta. split; intros Hev.
  - assert (Hflip : forall w0,
      apply_specular (nb (additional_event_handler ev w0).2) = negb (apply_specular (nb w0))
      /\ frames (vis (additional_event_handler ev w0).2) = frames (vis w0) ++ [FullFrame]).
    { intros w0. rewrite additional_event_handler_run, Hev.
      destruct (render _ _).1; simpl; auto. }
    destruct (Hflip w) as [Hflag Hframes].
    destruct (Hflip (additional_event_handler ev w).2) as [Hflag' _].
    rewrite Hflag', Hflag, negb_involutive. auto.
  - rewrite additional_event_handler_run, Hev.
    destruct (ui_event ev); simpl; auto.
Qed.
End Toggle.

Lemma space_keydown_toggles_apply_specular_witness :
  let w1 := (@additional_event_handler Demo.backend (Demo.keydown " ") Demo.world).2 in
  let w2 := (@additional_event_handler Demo.backend (Demo.keydown " ") w1).2 in
  (apply_specular (nb w1) = negb (apply_specular (nb Demo.world))
   /\ frames (vis w1) = frames (vis Demo.world) ++ [FullFrame]
   /\ apply_specular (nb w2) = apply_specular (nb Demo.world))
  /\ apply_specular (nb (@additional_event_handler Demo.backend Demo.mousemove Demo.world).2)
     = apply_specular (nb Demo.world).
Proof.
  split.
  - apply (@space_keydown_toggles_apply_specular Demo.backend (Demo.keydown " ") Demo.world).
    vm_compute. reflexivity.
  - apply (@space_keydown_toggles_apply_specular Demo.backend Demo.mousemove Demo.world).
    vm_compute. reflexivity.
Defined.

(** ** The sliders *)

Section Sliders.
Context `{Backend}.

(** C2, as amended.  On a slider change whose four values fit float32
    tensors, the callback writes each new value in place into its lighting
    parameter (every element of the tensor becomes the value, in the
    tensor's float32), then issues exactly one full-resolution render
    update; the render callback of that update runs in the world [w1] that
    holds the new values, and its image is what the canvas shows
    afterwards.  On a slider change with a value that does not fit, the
    write of that value raises inside the [with] block: the parameters
    before it are written, this one and the ones after it are not, the
    error goes to the output area and no render update is issued. *)
Theorem sliders_callback_writes_then_renders_once
    (new_elevation new_azimuth new_amplitude new_sharpness : F64.t) (w : World) :
  let w1 := after_sliders new_elevation new_azimuth new_amplitude new_sharpness w in
  let w' := (sliders_callback new_elevation new_azimuth new_amplitude new_sharpness w).2 in
  (sliders_callback new_elevation new_azimuth new_amplitude new_sharpness w).1 = Ok PyNone
  /\ (storable new_elevation new_azimuth new_amplitude new_sharpness = true ->
      elevation (nb w1) = (fun _ => F64.to_f32 new_elevation) <$> elevation (nb w)
      /\ azimuth (nb w1) = (fun _ => F64.to_f32 new_azimuth) <$> azimuth (nb w)
      /\ amplitude (nb w1)
          = (fun _ => (F64.to_f32 new_amplitude, F64.to_f32 new_amplitude,
                       F64.to_f32 new_amplitude)) <$> amplitude (nb w)
      /\ sharpness (nb w1) = (fun _ => F64.to_f32 new_sharpness) <$> sharpness (nb w)
      /\ apply_specular (nb w1) = apply_specular (nb w)
      /\ mesh (nb w1) = mesh (nb w)
      /\ nb w' = nb w1
      /\ frames (vis w1) = frames (vis w) ++ [FullFrame]
      /\ frames (vis w') = frames (vis w) ++ [FullFrame]
      /\ canvas (vis w')
          = match (render VisualizerCamera w1).1 with
            | Ok r => Some (img r)
            | Raise _ => canvas (vis w)
            end)
  /\ (storable new_elevation new_azimuth new_amplitude new_sharpness = false ->
      nb w' = slider_writes new_elevation new_azimuth new_amplitude new_sharpness (nb w)
      /\ (F64.fits_f32 new_elevation = false -> nb w' = nb w)
      /\ sharpness (nb w') = sharpness (nb w)
      /\ frames (vis w') = frames (vis w)
      /\ canvas (vis w') = canvas (vis w)
      /\ out (vis w') = out (vis w) ++ [overflow_error]).
Proof.
  cbv zeta. rewrite sliders_callback_run.
  destruct (storable new_elevation new_azimuth new_amplitude new_sharpness) eqn:Hfit.
  - cbv zeta. split; [now destruct (render VisualizerCamera _).1|].
    split; [|discriminate]. intros _.
    destruct (render VisualizerCamera _).1; simpl; repeat split.
  - split; [reflexivity|]. split; [discriminate|]. intros _.
    unfold storable in Hfit. unfold slider_writes. simpl.
    destruct (F64.fits_f32 new_elevation); [|destruct (nb w); repeat split].
    destruct (F64.fits_f32 new_azimuth); [|repeat split; discriminate].
    destruct (F64.fits_f32 new_amplitude); [|repeat split; discriminate].
    destruct (F64.fits_f32 new_sharpness); [discriminate|repeat split; discriminate].
Qed.
End Sliders.

Lemma sliders_callback_writes_then_renders_once_witness :
  let w' := (@sliders_callback Demo.backend Demo.tenth Demo.tenth Demo.five Demo.tenth
               Demo.shown).2 in
  amplitude (nb w') = [(F32.of_Z 5, F32.of_Z 5, F32.of_Z 5)]
  /\ frames (vis w') = frames (vis Demo.shown) ++ [FullFrame].
Proof.
  destruct (@sliders_callback_writes_then_renders_once Demo.backend
              Demo.tenth Demo.tenth Demo.five Demo.tenth Demo.shown) as (_ & Hfits & _).
  destruct Hfits as (_ & _ & Hamplitude & _ & _ & _ & Hnb & _ & Hframes & _);
    [vm_compute; reflexivity|].
  cbv zeta. rewrite Hnb, Hamplitude. split; [reflexivity | exact Hframes].
Defined.

(** C2, as stated, fails for a slider change to 1e39: the write of the
    amplitude raises, the amplitude keeps its old value and no render
    update is issued. *)
Lemma sliders_callback_refuses_huge_value :
  let w' := (@sliders_callback Demo.backend Demo.tenth Demo.tenth Demo.beyond Demo.tenth
               Demo.shown).2 in
  frames (vis w') <> frames (vis Demo.shown) ++ [FullFrame]
  /\ frames (vis w') = frames (vis Demo.shown)
  /\ amplitude (nb w') = amplitude (nb Demo.shown)
  /\ out (vis w') = [overflow_error].
Proof. vm_compute. repeat split. discriminate. Qed.

(** The scenario of the spec: the amplitude slider goes from its old value
    to 5.0 in one step; one full frame is requested and the render callback
    sees an amplitude of 5 in every channel. *)
Example slider_to_five :
  let w' := (@sliders_callback Demo.backend Demo.tenth Demo.tenth Demo.five Demo.tenth
               Demo.shown).2 in
  amplitude (nb w') = [(F32.of_Z 5, F32.of_Z 5, F32.of_Z 5)]
  /\ frames (vis w') = [FullFrame]
  /\ canvas (vis w') = Some (img Demo.rendered).
Proof. vm_compute. repeat split. Qed.

(** ** Exceptions in the callbacks *)

Section Captured.
Context `{Backend}.
Variable camera_control : event -> Camera -> Camera.
Variable decide : event -> option frame_request.

Lemma malformed_not_space_keydown ev : ui_event ev = false -> space_keydown ev = false.
Proof.
  unfold space_keydown, ui_event.
  destruct (ev !! "type") as [type|]; [|reflexivity].
  destruct (py_eq_str type "keydown"); [|now destruct (ev !! "key")].
  destruct (ev !! "key"); [|reflexivity].
  rewrite bool_decide_eq_false. intros Hnone. exfalso. apply Hnone. eauto.
Qed.

Lemma event_loop_returns inputs w : (event_loop inputs w).1 = Ok tt.
Proof.
  revert w. induction inputs as [|input rest IH]; intros w; [reflexivity|].
  simpl. destruct (react_returns input w) as [v Hv].
  unfold mbind, M_bind. destruct (react input w) as [o w1]. simpl in Hv. subst o.
  apply IH.
Qed.

(** An event, through the router. *)
Lemma serve_event_run ev w :
  serve camera_control decide (KeyOrPointer ev) w
  = if space_keydown ev then (Ok tt, (additional_event_handler ev w).2)
    else if ui_event ev then
      schedule (decide ev)
        (set_vis (fun v => set_vis_camera (camera_control ev (vis_camera v)) v) w)
    else (Ok tt, (additional_event_handler ev w).2).
Proof.
  unfold serve, handle_event. run_calls. rewrite additional_event_handler_run.
  destruct (space_keydown ev).
  - now destruct (render VisualizerCamera _).1.
  - now destruct (ui_event ev).
Qed.

(** Whatever the input and whatever the renderer does, serving an input
    returns. *)
Lemma serve_returns input w : (serve camera_control decide input w).1 = Ok tt.
Proof.
  destruct input as [ev|e a m s].
  - rewrite serve_event_run.
    destruct (space_keydown ev); [reflexivity|].
    destruct (ui_event ev); [|reflexivity].
    rewrite schedule_run. destruct (decide ev) as [request|]; [|reflexivity].
    cbv zeta. now destruct (callback request VisualizerCamera _).1.
  - unfold serve. run_calls. rewrite sliders_callback_run.
    destruct (storable e a m s); [|reflexivity].
    cbv zeta. now destruct (render VisualizerCamera _).1.
Qed.

Lemma session_returns inputs w : (session camera_control decide inputs w).1 = Ok tt.
Proof.
  revert w. induction inputs as [|input rest IH]; intros w; [reflexivity|].
  cbn [session]. pose proof (serve_returns input w) as Hv.
  unfold mbind, M_bind. destruct (serve camera_control decide input w) as [o w1].
  simpl in Hv. subst o. apply IH.
Qed.

(** C5.  If the render callback raises, in a frame the space key or the
    sliders asked for or in a frame the scheduler rendered for any other
    event, the error is captured and surfaced in the output area: serving
    the input returns, the canvas keeps the image it showed, and the event
    loop goes on with whatever inputs follow.  The same holds for the other
    code of the two handlers: an event without the field the handler looks
    up leaves its [KeyError] in the output area, a slider value that does
    not fit leaves its overflow error there, and neither touches the
    canvas. *)
Theorem callback_exceptions_are_captured
    (input : ui_input) (inputs : list ui_input) (w w1 : World)
    (request : frame_request) (err : exn) :
  rendering camera_control decide input w = Some (request, w1) ->
  (callback request VisualizerCamera w1).1 = Raise err ->
  let w' := (serve camera_control decide input w).2 in
  (serve camera_control decide input w).1 = Ok tt
  /\ out (vis w') = out (vis w) ++ [err]
  /\ canvas (vis w') = canvas (vis w)
  /\ (session camera_control decide inputs w').1 = Ok tt
  /\ (session camera_control decide (input :: inputs) w).1 = Ok tt
  /\ (forall ev w0, ui_event ev = false ->
        let w0' := (serve camera_control decide (KeyOrPointer ev) w0).2 in
        (exists key, out (vis w0') = out (vis w0) ++ [KeyError key])
        /\ canvas (vis w0') = canvas (vis w0))
  /\ (forall e a m s w0, storable e a m s = false ->
        let w0' := (serve camera_control decide (SliderChange e a m s) w0).2 in
        out (vis w0') = out (vis w0) ++ [overflow_error]
        /\ canvas (vis w0') = canvas (vis w0)).
Proof.
  intros Hframe Hfail. cbv zeta.
  split; [apply serve_returns|].
  assert (Hrun : (serve camera_control decide input w).2 = set_vis (log_out err) w1
                 /\ out (vis w1) = out (vis w) /\ canvas (vis w1) = canvas (vis w)).
  { destruct input as [ev|e a m s]; simpl in Hframe.
    - rewrite serve_event_run, additional_event_handler_run.
      destruct (space_keydown ev).
      + injection Hframe as <- <-. simpl in Hfail. rewrite Hfail. auto.
      + destruct (ui_event ev); [|discriminate].
        rewrite schedule_run.
        destruct (decide ev) as [request'|]; [|discriminate].
        injection Hframe as <- <-. cbv zeta. rewrite Hfail. auto.
    - unfold serve. run_calls. rewrite sliders_callback_run.
      destruct (storable e a m s); [|discriminate].
      injection Hframe as <- <-. simpl in Hfail. cbv zeta. rewrite Hfail. auto. }
  destruct Hrun as (-> & Hout & Hcanvas).
  split; [simpl; now rewrite Hout|]. split; [simpl; now rewrite Hcanvas|].
  split; [apply session_returns|].
  split; [apply (session_returns (input :: inputs))|].
  split.
  - intros ev w0 Hmalformed.
    rewrite serve_event_run, additional_event_handler_run.
    rewrite (malformed_not_space_keydown ev Hmalformed), Hmalformed.
    simpl. eauto.
  - intros e a m s w0 Hfit.
    unfold serve. run_calls. rewrite sliders_callback_run, Hfit. simpl. auto.
Qed.
End Captured.

Lemma callback_exceptions_are_captured_witness :
  let serve := @serve Demo.broken_backend (fun _ c => c) (fun _ => Some FastFrame) in
  let w' := (serve (KeyOrPointer Demo.mousemove) Demo.shown).2 in
  (serve (KeyOrPointer Demo.mousemove) Demo.shown).1 = Ok tt
  /\ out (vis w') = out (vis Demo.shown) ++ [RuntimeError "out of memory"]
  /\ canvas (vis w') = canvas (vis Demo.shown)
  /\ (@session Demo.broken_backend (fun _ c => c) (fun _ => Some FastFrame)
        [SliderChange Demo.five Demo.five Demo.five Demo.five;
         KeyOrPointer (Demo.keydown " ")]
        w').1 = Ok tt.
Proof.
  pose proof (@callback_exceptions_are_captured Demo.broken_backend
                (fun _ c => c) (fun _ => Some FastFrame)
                (KeyOrPointer Demo.mousemove)
                [SliderChange Demo.five Demo.five Demo.five Demo.five;
                 KeyOrPointer (Demo.keydown " ")]
                Demo.shown (set_vis (log_frame FastFrame) Demo.shown)
                FastFrame (RuntimeError "out of memory"))
    as Hcaptured.
  cbv zeta in Hcaptured.
  destruct Hcaptured as (Hret & Hout & Hcanvas & Hloop & _).
  - vm_compute. reflexivity.
  - vm_compute. reflexivity.
  - cbv zeta. auto.
Defined.

(** ** The veto of the event handler *)

Section Veto.
Context `{Backend}.

(** C1, as amended.  The notebook's handler returns [False] for a keydown
    event whose key is the space character when its render update
    returned; when the render update raised, the [with] block swallows the
    exception and the handler falls through to [None]; it returns [True]
    for every other event that carries its type (and its key when it is a
    keydown), and [None] again for an event without the field it looks
    up.  [False] and [None] are both falsy: for a space keydown and for
    an event with a missing field the router skips the default
    camera-control mapping and requests no frame, so the world is as the
    handler left it and neither camera has changed; for every other
    event the mapping is applied to the visualizer's camera and the frame
    is requested. *)
Theorem suppressing_handler_skips_camera_control
    (camera_control : event -> Camera -> Camera) (request_frame : event -> M unit)
    (ev : event) (w : World) :
  let handled := additional_event_handler ev w in
  let routed :=
    handle_event (Some additional_event_handler) camera_control request_frame ev w in
  handled.1
  = Ok (if space_keydown ev then
          if is_ok (render VisualizerCamera (after_toggle w)).1 then PyBool false
          else PyNone
        else if ui_event ev then PyBool true
        else PyNone)
  /\ (space_keydown ev = true \/ ui_event ev = false ->
      (exists v, handled.1 = Ok v /\ truthy v = false)
      /\ routed = (Ok tt, handled.2)
      /\ vis_camera (vis routed.2) = vis_camera (vis w)
      /\ camera (nb routed.2) = camera (nb w))
  /\ (space_keydown ev = false -> ui_event ev = true ->
      handled = (Ok (PyBool true), w)
      /\ routed
         = request_frame ev
             (set_vis (fun vz => set_vis_camera (camera_control ev (vis_camera vz)) vz) w)).
Proof.
  cbv zeta. unfold handle_event. run_calls.
  rewrite additional_event_handler_run.
  destruct (space_keydown ev) eqn:Hspace.
  - destruct (render VisualizerCamera (after_toggle w)).1 as [r|e]; simpl;
      (split; [reflexivity|]); (split; [|discriminate]); intros _; eauto 10.
  - destruct (ui_event ev) eqn:Hui; simpl; (split; [reflexivity|]); split.
    + intros [|]; discriminate.
    + auto.
    + intros _. eauto 10.
    + discriminate.
Qed.
End Veto.

Lemma suppressing_handler_skips_camera_control_witness :
  (@additional_event_handler Demo.backend (Demo.keydown " ") Demo.world).1 = Ok (PyBool false)
  /\ @additional_event_handler Demo.backend (Demo.keydown "a") Demo.world
      = (Ok (PyBool true), Demo.world)
  /\ vis_camera (vis (@handle_event (Some (@additional_event_handler Demo.backend))
                        (fun _ _ => Demo.eye 1 1) (fun _ => mret tt)
                        (Demo.keydown " ") Demo.world).2)
      = vis_camera (vis Demo.world).
Proof.
  destruct (@suppressing_handler_skips_camera_control Demo.backend
              (fun _ _ => Demo.eye 1 1) (fun _ => mret tt) (Demo.keydown " ") Demo.world)
    as (Hfalse & Hspace & _).
  destruct (@suppressing_handler_skips_camera_control Demo.backend
              (fun _ _ => Demo.eye 1 1) (fun _ => mret tt) (Demo.keydown "a") Demo.world)
    as (_ & _ & Hother).
  destruct Hspace as (_ & _ & Hcamera & _); [left; vm_compute; reflexivity|].
  destruct Hother as [Hother _]; [vm_compute; reflexivity | vm_compute; reflexivity|].
  split; [exact Hfalse|]. split; [exact Hother | exact Hcamera].
Defined.

(** C1, as stated, fails in two ways.  A space keydown whose render update
    raises does not return [False]: the exception leaves the [with] block
    and the handler returns [None].  And not every other event returns
    [True]: a keydown event that carries no key returns [None] too. *)
Lemma handler_returns_none :
  (@additional_event_handler Demo.broken_backend (Demo.keydown " ") Demo.shown).1
  <> Ok (PyBool false)
  /\ (@additional_event_handler Demo.backend {[ "type" := PyStr "keydown" ]} Demo.shown).1
     <> Ok (PyBool true)
  /\ (@additional_event_handler Demo.broken_backend (Demo.keydown " ") Demo.shown).1
     = Ok PyNone
  /\ (@additional_event_handler Demo.backend {[ "type" := PyStr "keydown" ]} Demo.shown).1
     = Ok PyNone.
Proof. vm_compute. repeat split; discriminate. Qed.

(** ** The reduced resolution *)

Section Quarter.
Import SpecFloat.

Lemma digits2_pos_bounds (m : positive) :
  2 ^ (Z.pos (digits2_pos m) - 1) <= Z.pos m < 2 ^ Z.pos (digits2_pos m).
Proof.
  induction m as [m IH|m IH|]; simpl digits2_pos.
  - rewrite Pos2Z.inj_succ.
    replace (Z.succ (Z.pos (digits2_pos m)) - 1)
      with (Z.succ (Z.pos (digits2_pos m) - 1)) by lia.
    rewrite !Z.pow_succ_r by lia. lia.
  - rewrite Pos2Z.inj_succ.
    replace (Z.succ (Z.pos (digits2_pos m)) - 1)
      with (Z.succ (Z.pos (digits2_pos m) - 1)) by lia.
    rewrite !Z.pow_succ_r by lia. lia.
  - simpl. lia.
Qed.

Lemma digits2_pos_unique (m : positive) (n : Z) :
  2 ^ (n - 1) <= Z.pos m < 2 ^ n -> Z.pos (digits2_pos m) = n.
Proof.
  intros [Hlo Hhi]. pose proof (digits2_pos_bounds m) as [Hlo' Hhi'].
  assert (0 < n).
  { destruct (Z.ltb_spec 0 n); trivial.
    exfalso. destruct (Z.eq_dec n 0) as [->|]; [simpl in Hhi; lia|].
    rewrite Z.pow_neg_r in Hhi by lia. lia. }
  destruct (Z.lt_trichotomy (Z.pos (digits2_pos m)) n) as [Hlt|[Heq|Hgt]];
    trivial; exfalso.
  - assert (2 ^ Z.pos (digits2_pos m) <= 2 ^ (n - 1)) by (apply Z.pow_le_mono_r; lia).
    lia.
  - assert (2 ^ n <= 2 ^ (Z.pos (digits2_pos m) - 1)) by (apply Z.pow_le_mono_r; lia).
    lia.
Qed.

Lemma digits2_pos_small (m : positive) :
  Z.pos m < 2 ^ 53 -> 1 <= Z.pos (digits2_pos m) <= 53.
Proof.
  intros Hm. pose proof (digits2_pos_bounds m) as [Hlo _].
  split; [lia|].
  destruct (Z.leb_spec (Z.pos (digits2_pos m)) 53); trivial. exfalso.
  assert (2 ^ 53 <= 2 ^ (Z.pos (digits2_pos m) - 1)) by (apply Z.pow_le_mono_r; lia).
  lia.
Qed.

(** An integer below 2^53 divided by 4 in binary64: the mantissa is only
    shifted, nothing is rounded away. *)
Lemma quarter_div (s : bool) (m : positive) :
  Z.pos m < 2 ^ 53 ->
  let d := Z.pos (digits2_pos m) in
  F64.div (S754_finite s m 0) (S754_finite false 4 0)
  = S754_finite s (Z.to_pos (Z.pos m * 2 ^ (53 - d))) (d - 55).
Proof.
  intros Hm d.
  pose proof (digits2_pos_bounds m) as [Hlo Hhi]. fold d in Hlo, Hhi.
  pose proof (digits2_pos_small m Hm) as Hd. fold d in Hd.
  unfold F64.div, F64.prec, F64.emax, SFdiv, SFdiv_core_binary.
  change (Zdigits2 (Z.pos m)) with d.
  change (Zdigits2 4) with 3.
  replace (Z.min (fexp 53 1024 (d + 0 - (3 + 0))) (0 - 0)) with (d - 56)
    by (unfold fexp, emin; lia).
  replace (0 - 0 - (d - 56)) with (56 - d) by lia.
  assert (Hshift : match 56 - d with
       | 0 => Z.pos m
       | Z.pos _ => IntDef.Z.shiftl (Z.pos m) (56 - d)
       | Z.neg _ => 0
       end = 4 * (Z.pos m * 2 ^ (54 - d))).
  { destruct (56 - d) eqn:E; try lia.
    rewrite <- E.
    change IntDef.Z.shiftl with Z.shiftl.
    rewrite Z.shiftl_mul_pow2 by lia.
    replace (56 - d) with (2 + (54 - d)) by lia.
    rewrite Z.pow_add_r by lia. change (2 ^ 2) with 4. lia. }
  rewrite Hshift. clear Hshift.
  set (q := Z.pos m * 2 ^ (54 - d)).
  assert (Hdiv : IntDef.Z.div_eucl (4 * q) 4 = (q, 0)).
  { change IntDef.Z.div_eucl with Z.div_eucl.
    pose proof (Z.div_eucl_eq (4 * q) 4 ltac:(lia)) as Heq.
    pose proof (Z.mod_pos_bound (4 * q) 4 ltac:(lia)) as Hbound.
    unfold Z.modulo in Hbound.
    destruct (Z.div_eucl (4 * q) 4) as [q' r']. f_equal; lia. }
  rewrite Hdiv. clear Hdiv.
  change (new_location 4 0) with loc_Exact.
  rewrite xorb_false_r.
  set (P := Z.pos m * 2 ^ (53 - d)).
  assert (HP : 2 ^ 52 <= P < 2 ^ 53).
  { unfold P. split.
    - replace 52 with ((d - 1) + (53 - d)) by lia.
      rewrite Z.pow_add_r by lia.
      apply Z.mul_le_mono_nonneg_r; [apply Z.pow_nonneg|]; lia.
    - replace 53 with (d + (53 - d)) at 2 by lia.
      rewrite Z.pow_add_r by lia.
      apply Z.mul_lt_mono_pos_r; [apply Z.pow_pos_nonneg|]; lia. }
  assert (Hq : q = Z.pos (xO (Z.to_pos P))).
  { rewrite Pos2Z.inj_xO, Z2Pos.id by lia. unfold q, P.
    replace (54 - d) with (1 + (53 - d)) by lia.
    rewrite Z.pow_add_r by lia. lia. }
  assert (Hdigits : Z.pos (digits2_pos (Z.to_pos P)) = 53).
  { apply digits2_pos_unique. rewrite Z2Pos.id by lia. exact HP. }
  rewrite Hq. clear Hq q.
  unfold binary_round_aux, shr_fexp.
  cbn [Zdigits2 digits2_pos].
  rewrite Pos2Z.inj_succ, Hdigits.
  replace (fexp 53 1024 (Z.succ 53 + (d - 56)) - (d - 56)) with 1
    by (unfold fexp, emin; lia).
  cbn [shr shr_record_of_loc iter_pos shr_1 shr_m loc_of_shr_record
       round_nearest_even orb].
  cbn [Zdigits2]. rewrite Hdigits.
  replace (fexp 53 1024 (53 + (d - 56 + 1)) - (d - 56 + 1)) with 0
    by (unfold fexp, emin; lia).
  cbn [shr shr_m].
  replace (d - 56 + 1) with (d - 55) by lia.
  destruct (Z.leb_spec (d - 55) (1024 - 53)); [reflexivity | lia].
Qed.

(** [int(n / 4)] is the quotient truncated toward zero, for every Python
    int below 2^53 in magnitude. *)
Lemma py_int_quarter (n : Z) :
  Z.abs n < 2 ^ 53 -> py_truediv n 4 ≫= py_int = Ok (Z.quot n 4).
Proof.
  intros Hn. unfold py_truediv.
  assert (Hfin : forall s m, Z.pos m < 2 ^ 53 ->
    match F64.div (S754_finite s m 0) (S754_finite false 4 0) with
    | S754_infinity _ => Raise OverflowError
    | q => Ok q
    end ≫= py_int = Ok (Z.quot (if s then Z.neg m else Z.pos m) 4)).
  { intros s m Hm. rewrite quarter_div by exact Hm. cbv zeta.
    pose proof (digits2_pos_bounds m) as [Hlo Hhi].
    pose proof (digits2_pos_small m Hm) as Hd.
    set (d := Z.pos (digits2_pos m)) in *.
    unfold mbind, outcome_bind, py_int, F64.trunc.
    destruct (Z.leb_spec 0 (d - 55)); [lia|].
    rewrite Z2Pos.id by (apply Z.mul_pos_pos; [|apply Z.pow_pos_nonneg]; lia).
    rewrite Z.shiftr_div_pow2 by lia.
    replace (- (d - 55)) with ((53 - d) + 2) by lia.
    rewrite Z.pow_add_r by lia.
    rewrite Z.mul_comm, Z.div_mul_cancel_l by (try apply Z.pow_nonzero; lia).
    change (2 ^ 2) with 4.
    f_equal. destruct s.
    - change (Z.neg m) with (- Z.pos m). rewrite Z.quot_opp_l by lia.
      rewrite Z.quot_div_nonneg by lia. reflexivity.
    - rewrite Z.quot_div_nonneg by lia. reflexivity. }
  destruct n as [|m|m].
  - reflexivity.
  - apply (Hfin false m). lia.
  - apply (Hfin true m). lia.
Qed.
End Quarter.

(** Beyond 2^53 the quotient is rounded to a double before it is truncated:
    [int((2**54 + 3) / 4)] is 2^52 + 1, one more than the truncated
    quotient. *)
Example py_int_quarter_rounds :
  py_truediv (2 ^ 54 + 3) 4 ≫= py_int = Ok (2 ^ 52 + 1)
  /\ Z.quot (2 ^ 54 + 3) 4 = 2 ^ 52.
Proof. split; vm_compute; reflexivity. Qed.

Example py_int_quarter_512 : py_truediv 512 4 ≫= py_int = Ok 128.
Proof. vm_compute. reflexivity. Qed.

Section Resolutions.
Context `{Backend}.

(** C3, as amended.  The full path calls [base_render] with the camera's
    own height and width; the fast path calls the same [base_render] on
    the same mesh and camera with the height and the width each divided
    by 4 and truncated to an integer, for every camera whose height and
    width are below 2^53 in magnitude. *)
Theorem lowres_render_quarters_resolution (camera : camref) (w : World) :
  Z.abs (cam_height (deref camera w)) < 2 ^ 53 ->
  Z.abs (cam_width (deref camera w)) < 2 ^ 53 ->
  render camera w
  = base_render (mesh (nb w)) camera (cam_height (deref camera w))
      (cam_width (deref camera w)) w
  /\ lowres_render camera w
     = base_render (mesh (nb w)) camera (Z.quot (cam_height (deref camera w)) 4)
         (Z.quot (cam_width (deref camera w)) 4) w.
Proof.
  intros Hh Hw. split; [reflexivity|].
  pose proof (py_int_quarter _ Hh) as Eh. pose proof (py_int_quarter _ Hw) as Ew.
  unfold mbind in Eh, Ew.
  unfold lowres_render. run_calls. rewrite Eh, Ew. reflexivity.
Qed.
End Resolutions.

Lemma lowres_render_quarters_resolution_witness :
  @render Demo.backend NotebookCamera Demo.world
  = @base_render Demo.backend (mesh (nb Demo.world)) NotebookCamera 8 12 Demo.world
  /\ @lowres_render Demo.backend NotebookCamera Demo.world
     = @base_render Demo.backend (mesh (nb Demo.world)) NotebookCamera 2 3 Demo.world.
Proof.
  apply (@lowres_render_quarters_resolution Demo.backend NotebookCamera Demo.world);
    vm_compute; reflexivity.
Defined.

(** C3, as stated, fails for a camera of 2^54 + 3 rows: the fast path asks
    for 2^52 + 1 rows, which this rasterizer refuses, where the truncated
    quotient 2^52 would have been accepted. *)
Lemma lowres_render_rounds_huge_height :
  @lowres_render Demo.limited_backend VisualizerCamera Demo.huge
  <> @base_render Demo.limited_backend (mesh (nb Demo.huge)) VisualizerCamera
       (Z.quot (cam_height (deref VisualizerCamera Demo.huge)) 4)
       (Z.quot (cam_width (deref VisualizerCamera Demo.huge)) 4) Demo.huge.
Proof. vm_compute. discriminate. Qed.

(** ** More on the mesh preprocessing *)

Section MeshRows.
Implicit Types (m : Mesh) (f : face) (i : Z).

(** X1.  The preprocessing step keeps every uv row where it was and adds
    one row of zeros at the end: an index that was valid still reads the
    same uv coordinates, and an index that was -1 now reads (0, 0); the
    faces keep their positions. *)
Theorem preprocess_mesh_uv_lookup (m : Mesh) :
  let remap i := if i =? -1 then Z.of_nat (length (uvs m)) else i in
  (forall k f, face_uvs_idx m !! k = Some f ->
     face_uvs_idx (preprocess_mesh m) !! k = Some (face_map remap f))
  /\ uvs (preprocess_mesh m) !! Z.to_nat (remap (-1)) = Some (F32.zero, F32.zero)
  /\ (forall i, 0 <= i < Z.of_nat (length (uvs m)) ->
        remap i = i
        /\ uvs (preprocess_mesh m) !! Z.to_nat (remap i) = uvs m !! Z.to_nat i).
Proof.
  cbv zeta. split; [|split].
  - intros k f Hk. rewrite preprocess_mesh_face_uvs_idx, list_lookup_fmap, Hk. reflexivity.
  - rewrite preprocess_mesh_uvs. change (-1 =? -1) with true. cbv iota.
    rewrite Nat2Z.id, lookup_app_r by reflexivity. now rewrite Nat.sub_diag.
  - intros i Hi. destruct (Z.eqb_spec i (-1)); [lia|]. split; [reflexivity|].
    rewrite preprocess_mesh_uvs. apply lookup_app_l. lia.
Qed.

(** X2.  Running the preprocessing cell a second time pads the uv array
    once more but changes no index: the first run leaves no -1 behind. *)
Theorem preprocess_mesh_twice (m : Mesh) :
  face_uvs_idx (preprocess_mesh (preprocess_mesh m)) = face_uvs_idx (preprocess_mesh m)
  /\ uvs (preprocess_mesh (preprocess_mesh m))
     = uvs m ++ [(F32.zero, F32.zero); (F32.zero, F32.zero)]
  /\ forall f i, f ∈ face_uvs_idx (preprocess_mesh m) -> i ∈ face_entries f -> i <> -1.
Proof.
  assert (Hnone : forall f i,
    f ∈ face_uvs_idx (preprocess_mesh m) -> i ∈ face_entries f -> i <> -1).
  { intros f i Hf Hi. rewrite preprocess_mesh_face_uvs_idx in Hf.
    apply list_elem_of_fmap in Hf as (f0 & -> & _).
    apply face_entries_map in Hi as (j & _ & ->).
    destruct (Z.eqb_spec j (-1)); lia. }
  split; [|split; [|exact Hnone]].
  - rewrite (preprocess_mesh_face_uvs_idx (preprocess_mesh m)).
    rewrite <- (list_fmap_id (face_uvs_idx (preprocess_mesh m))) at 2.
    apply list_fmap_ext. intros k f Hk.
    apply list_elem_of_lookup_2 in Hk.
    destruct f as [[a b] c]. unfold face_map, id.
    assert (Ha := Hnone _ a Hk). assert (Hb := Hnone _ b Hk). assert (Hc := Hnone _ c Hk).
    unfold face_entries in Ha, Hb, Hc. simpl in Ha, Hb, Hc.
    rewrite !elem_of_cons in Ha, Hb, Hc.
    destruct (Z.eqb_spec a (-1)); [exfalso; apply Ha; auto|].
    destruct (Z.eqb_spec b (-1)); [exfalso; apply Hb; auto|].
    destruct (Z.eqb_spec c (-1)); [exfalso; apply Hc; auto|].
    reflexivity.
  - rewrite !preprocess_mesh_uvs, <- app_assoc. reflexivity.
Qed.
End MeshRows.

(** ** The material maps *)

Section Maps.
Context {A B : Type} (f : A -> outcome B).

Lemma mapM_Ok (l : list A) (k : list B) :
  mapM f l = Ok k ->
  length k = length l
  /\ forall i x, l !! i = Some x -> exists y, f x = Ok y /\ k !! i = Some y.
Proof.
  revert k. induction l as [|x l IH]; intros k; simpl.
  - intros [= <-]. split; [reflexivity|]. intros i x Hx. discriminate.
  - unfold mbind, outcome_bind.
    destruct (f x) as [y|e] eqn:Ey; [|discriminate].
    destruct (mapM f l) as [k'|e]; [|discriminate].
    intros [= <-]. destruct (IH k' eq_refl) as [Hlen Hall].
    split; [simpl; now rewrite Hlen|].
    intros [|i] x' Hx'; simpl in *.
    + injection Hx' as <-. eauto.
    + now apply Hall.
Qed.

Lemma mapM_Raise (before after : list A) (x : A) (e : exn) :
  Forall (fun a => is_ok (f a) = true) before ->
  f x = Raise e ->
  mapM f (before ++ x :: after) = Raise e.
Proof.
  intros Hbefore Hx. induction Hbefore as [|a before Ha _ IH]; simpl.
  - unfold mbind, outcome_bind. now rewrite Hx.
  - rewrite IH. unfold mbind, outcome_bind. now destruct (f a).
Qed.
End Maps.

(** X3.  When both list comprehensions succeed, [diffuse_maps] and
    [specular_maps] have one map per material, in the materials' order, so
    [specular_maps[i]] exists for every [i] that indexes [diffuse_maps]; a
    material with a texture gives a map of the texture's extent with every
    channel divided by 255, a material without one gives a single texel of
    its colour. *)
Theorem material_maps_are_aligned
    (materials : list material) (diffuse specular : list (grid vec3)) :
  build_diffuse_maps materials = Ok diffuse ->
  build_specular_maps materials = Ok specular ->
  length diffuse = length materials
  /\ length specular = length diffuse
  /\ (forall i, 0 <= i < Z.of_nat (length diffuse) -> is_ok (py_index specular i) = true)
  /\ (forall k m, materials !! k = Some m ->
        exists map, diffuse !! k = Some map
          /\ match images m !! "map_Kd" with
             | Some image =>
                 grows map = grows image /\ gcols map = gcols image
                 /\ gpix map = (fun c : rgb8 => (texel c.1.1, texel c.1.2, texel c.2))
                                  <$> gpix image
             | None =>
                 exists r g b, colours m !! "Kd" = Some [r; g; b]
                               /\ map = Grid 1 1 [(r, g, b)]
             end).
Proof.
  intros Hd Hs.
  apply mapM_Ok in Hd as [Hdlen Hd]. apply mapM_Ok in Hs as [Hslen Hs].
  split; [exact Hdlen|]. split; [congruence|]. split.
  - intros i Hi. unfold py_index.
    destruct (Z.ltb_spec i 0); [lia|].
    destruct (Z.leb_spec 0 i); [|lia].
    destruct (Z.ltb_spec i (Z.of_nat (length specular))); [|lia]. simpl.
    destruct (specular !! Z.to_nat i) eqn:E; [reflexivity|].
    apply lookup_ge_None in E. lia.
  - intros k m Hk. destruct (Hd k m Hk) as (map & Hmap & Hlook).
    exists map. split; [exact Hlook|].
    unfold texture_map in Hmap.
    destruct (images m !! "map_Kd") as [image|].
    + injection Hmap as <-. auto.
    + destruct (colours m !! "Kd") as [[|r [|g [|b [|? ?]]]]|]; try discriminate.
      injection Hmap as <-. eauto.
Qed.

Lemma material_maps_are_aligned_witness :
  exists diffuse specular,
    build_diffuse_maps [Demo.painted; Demo.plain] = Ok diffuse
    /\ build_specular_maps [Demo.painted; Demo.plain] = Ok specular
    /\ length diffuse = 2%nat /\ length specular = length diffuse.
Proof.
  destruct (build_diffuse_maps [Demo.painted; Demo.plain]) as [diffuse|] eqn:Hd;
    [|vm_compute in Hd; discriminate].
  destruct (build_specular_maps [Demo.painted; Demo.plain]) as [specular|] eqn:Hs;
    [|vm_compute in Hs; discriminate].
  exists diffuse, specular.
  destruct (material_maps_are_aligned [Demo.painted; Demo.plain] diffuse specular Hd Hs)
    as (Hlen & Hlen' & _).
  auto.
Defined.

(** X4.  A material that has neither the texture nor the colour the
    comprehension asks for stops it with a [KeyError] on the colour key: the
    first such material decides, whatever follows it. *)
Theorem material_without_colour_raises
    (map_key colour_key : string) (before after : list material) (m : material) :
  Forall (fun a => is_ok (texture_map map_key colour_key a) = true) before ->
  images m !! map_key = None ->
  colours m !! colour_key = None ->
  mapM (texture_map map_key colour_key) (before ++ m :: after) = Raise (KeyError colour_key).
Proof.
  intros Hbefore Himage Hcolour.
  apply mapM_Raise; [exact Hbefore|]. unfold texture_map. now rewrite Himage, Hcolour.
Qed.

Lemma material_without_colour_raises_witness :
  build_specular_maps [Demo.painted; Demo.dull; Demo.plain] = Raise (KeyError "Ks")
  /\ is_ok (build_diffuse_maps [Demo.painted; Demo.dull; Demo.plain]) = true.
Proof.
  split; [|vm_compute; reflexivity].
  apply (material_without_colour_raises "map_Ks" "Ks" [Demo.painted] [Demo.plain] Demo.dull);
    try reflexivity.
  constructor; [vm_compute; reflexivity | constructor].
Defined.

(** The 256 texel values, each with the uint8 it comes from. *)
Lemma texel_table :
  forallb (fun c =>
    negb (F32.is_nan (texel c)) && negb (F32.ltb (texel c) F32.zero)
    && negb (F32.ltb F32.one (texel c))
    && forallb (fun c' => implb (c <? c') (F32.ltb (texel c) (texel c'))) (seqZ 0 256))
    (seqZ 0 256) = true.
Proof. vm_compute. reflexivity. Qed.

(** X5.  Dividing a texture by 255 maps the uint8 values into [0, 1] in
    float32, 0 to 0. and 255 to 1., without ever producing a NaN and in
    strictly increasing order: distinct texture values stay distinct. *)
Theorem texel_is_normalised (c : Z) :
  is_uint8 c ->
  F32.is_nan (texel c) = false
  /\ F32.ltb (texel c) F32.zero = false
  /\ F32.ltb F32.one (texel c) = false
  /\ texel 0 = F32.zero /\ texel 255 = F32.one
  /\ (forall c', is_uint8 c' -> c < c' -> F32.ltb (texel c) (texel c') = true).
Proof.
  intros Hc. pose proof texel_table as Htable.
  rewrite forallb_forall in Htable.
  assert (Hin : forall n, is_uint8 n -> In n (seqZ 0 256)).
  { intros n Hn. apply list_elem_of_In, elem_of_seqZ. unfold is_uint8 in Hn. lia. }
  specialize (Htable c (Hin c Hc)).
  rewrite !andb_true_iff, !negb_true_iff, forallb_forall in Htable.
  destruct Htable as [[[Hnan Hlo] Hhi] Hmono].
  repeat split; trivial.
  intros c' Hc' Hlt. specialize (Hmono c' (Hin c' Hc')).
  destruct (Z.ltb_spec c c'); [exact Hmono | lia].
Qed.

Lemma texel_is_normalised_witness :
  F32.is_nan (texel 128) = false
  /\ F32.ltb (texel 128) F32.zero = false
  /\ F32.ltb F32.one (texel 128) = false.
Proof.
  destruct (texel_is_normalised 128) as (Hnan & Hlo & Hhi & _).
  - unfold is_uint8. lia.
  - auto.
Defined.

(** ** The loop over the materials *)

Section MaterialLoop.
Context `{Backend}.

Lemma material_mask_lookup (im_material_idx : grid Z) (i : Z) (p : nat) (k : Z) :
  gpix im_material_idx !! p = Some k ->
  gpix (grid_map (fun m => m =? i) im_material_idx) !! p = Some (k =? i).
Proof. intros Hp. simpl. now rewrite list_lookup_fmap, Hp. Qed.

(** X6.  The loop over the materials keeps the extent of [albedo] and
    [spec_albedo] and writes only pixels whose material index is one of the
    maps it goes through: a pixel with another index, such as the -1 of an
    uncovered pixel, keeps the albedo it had. *)
Theorem texture_materials_writes_own_pixels
    (materials specular_maps : list (grid vec3)) (uv_map : grid vec2)
    (im_material_idx : grid Z) (i : Z) (albedo spec_albedo albedo' spec_albedo' : grid vec3) :
  texture_materials i materials specular_maps uv_map im_material_idx albedo spec_albedo
  = Ok (albedo', spec_albedo') ->
  (grows albedo' = grows albedo /\ gcols albedo' = gcols albedo
   /\ length (gpix albedo') = length (gpix albedo))
  /\ (grows spec_albedo' = grows spec_albedo /\ gcols spec_albedo' = gcols spec_albedo
      /\ length (gpix spec_albedo') = length (gpix spec_albedo))
  /\ forall p k, gpix im_material_idx !! p = Some k ->
       k < i \/ i + Z.of_nat (length materials) <= k ->
       gpix albedo' !! p = gpix albedo !! p
       /\ gpix spec_albedo' !! p = gpix spec_albedo !! p.
Proof.
  revert i albedo spec_albedo.
  induction materials as [|material rest IH]; intros i albedo spec_albedo; simpl.
  - intros [= <- <-]. auto.
  - unfold mbind at 1. unfold outcome_bind.
    destruct (masked_select uv_map _) as [texcoords|e]; [|discriminate].
    match goal with
    | |- context [if ?b then _ else _] => destruct b
    end.
    + unfold mbind at 2 3 4 5 6. unfold outcome_bind.
      destruct (texture material _) as [pixel_val|e]; [|discriminate].
      destruct (masked_assign albedo _ pixel_val) as [albedo1|e] eqn:Ea; [|discriminate].
      destruct (py_index specular_maps i) as [specular|e]; [|discriminate].
      destruct (texture specular _) as [pixel_val'|e]; [|discriminate].
      destruct (masked_assign spec_albedo _ pixel_val') as [spec1|e] eqn:Es; [|discriminate].
      unfold mbind, outcome_bind. intros Hrest.
      apply IH in Hrest as ((Hr & Hc & Hl) & (Hr' & Hc' & Hl') & Hkeep).
      apply masked_assign_Ok in Ea as (_ & Ha1 & Ha2 & Ha3 & Ha4).
      apply masked_assign_Ok in Es as (_ & Hs1 & Hs2 & Hs3 & Hs4).
      split; [repeat split; congruence|]. split; [repeat split; congruence|].
      intros p k Hp Hk.
      destruct (Hkeep p k Hp ltac:(lia)) as [Hka Hks].
      pose proof (material_mask_lookup im_material_idx i p k Hp) as Hmask.
      destruct (Z.eqb_spec k i); [lia|].
      rewrite Hka, Hks, (Ha4 p Hmask), (Hs4 p Hmask). auto.
    + unfold mbind, outcome_bind. intros Hrest.
      apply IH in Hrest as (Ha & Hs & Hkeep).
      split; [exact Ha|]. split; [exact Hs|].
      intros p k Hp Hk. apply (Hkeep p k Hp). lia.
Qed.

Lemma select_covers {P : Type} (l : list P) (mask : list bool) (p : nat) :
  length l = length mask -> mask !! p = Some true -> (0 < length (select l mask))%nat.
Proof.
  revert mask p. induction l as [|x l IH]; intros [|b mask] p Hlen Hp; simpl in *;
    try discriminate.
  destruct p as [|p]; simpl in Hp.
  - injection Hp as ->. simpl. lia.
  - destruct b; simpl; [lia|]. apply (IH mask p); [lia | exact Hp].
Qed.

(** X7.  The loop reads [specular_maps[i]] for every map [i] of
    [diffuse_maps] that some pixel uses: when a pixel shows a material whose
    index has a diffuse map but lies past the end of [specular_maps], the
    loop does not return. *)
Theorem texture_materials_needs_specular_map
    (materials specular_maps : list (grid vec3)) (uv_map : grid vec2)
    (im_material_idx : grid Z) (i : Z) (albedo spec_albedo : grid vec3) (p : nat) (k : Z) :
  0 <= i ->
  gpix im_material_idx !! p = Some k ->
  i <= k < i + Z.of_nat (length materials) ->
  Z.of_nat (length specular_maps) <= k ->
  is_ok (texture_materials i materials specular_maps uv_map im_material_idx
           albedo spec_albedo) = false.
Proof.
  revert i albedo spec_albedo.
  induction materials as [|material rest IH]; intros i albedo spec_albedo Hi Hp Hk Hlen;
    simpl in *; [lia|].
  unfold mbind at 1. unfold outcome_bind.
  destruct (masked_select uv_map _) as [texcoords|e] eqn:Esel; [|reflexivity].
  assert (Hnext : forall a s, i < k ->
    is_ok (texture_materials (i + 1) rest specular_maps uv_map im_material_idx a s) = false).
  { intros a s Hlt. apply IH; [lia | exact Hp | lia | exact Hlen]. }
  destruct (Z.eq_dec k i) as [->|Hne].
  - unfold masked_select in Esel.
    destruct (same_extent uv_map _) eqn:Eext; [|discriminate].
    injection Esel as <-.
    apply same_extent_spec in Eext as (_ & _ & Eext).
    pose proof (material_mask_lookup im_material_idx i p i Hp) as Hmask.
    rewrite Z.eqb_refl in Hmask.
    pose proof (select_covers _ _ p Eext Hmask) as Hcov.
    match goal with
    | |- context [bool_decide ?P] =>
        destruct (bool_decide_reflect P) as [_|Hno];
          [|exfalso; apply Hno; rewrite length_fmap; exact Hcov]
    end.
    unfold mbind at 2 3 4. unfold outcome_bind.
    destruct (texture material _); [|reflexivity].
    destruct (masked_assign albedo _ _); [|reflexivity].
    unfold py_index.
    destruct (Z.ltb_spec i 0); [lia|].
    destruct (Z.leb_spec 0 i); [|lia].
    destruct (Z.ltb_spec i (Z.of_nat (length specular_maps))); [lia|].
    reflexivity.
  - match goal with
    | |- context [if ?b then _ else _] => destruct b
    end.
    + unfold mbind at 2 3 4 5 6. unfold outcome_bind.
      destruct (texture material _); [|reflexivity].
      destruct (masked_assign albedo _ _); [|reflexivity].
      destruct (py_index specular_maps i); [|reflexivity].
      destruct (texture _ _); [|reflexivity].
      destruct (masked_assign spec_albedo _ _); [|reflexivity].
      unfold mbind, outcome_bind. apply Hnext. lia.
    + unfold mbind, outcome_bind. apply Hnext. lia.
Qed.
End MaterialLoop.

Lemma texture_materials_writes_own_pixels_witness :
  match @texture_materials Demo.backend 0 [Demo.white] [Demo.white] Demo.two_uvs
          Demo.two_pixels Demo.two_black Demo.two_black with
  | Ok (albedo, spec_albedo) =>
      gpix albedo !! 1%nat = Some vec3_zero /\ gpix spec_albedo !! 1%nat = Some vec3_zero
  | Raise _ => False
  end.
Proof.
  destruct (@texture_materials Demo.backend 0 [Demo.white] [Demo.white] Demo.two_uvs
              Demo.two_pixels Demo.two_black Demo.two_black)
    as [[albedo spec_albedo]|e] eqn:E; [|vm_compute in E; discriminate].
  destruct (@texture_materials_writes_own_pixels Demo.backend _ _ _ _ _ _ _ _ _ E)
    as (_ & _ & Hkeep).
  apply (Hkeep 1%nat (-1)); [reflexivity | lia].
Defined.

Lemma texture_materials_needs_specular_map_witness :
  is_ok (@texture_materials Demo.backend 0 [Demo.white] [] Demo.two_uvs
           Demo.two_pixels Demo.two_black Demo.two_black) = false.
Proof.
  apply (@texture_materials_needs_specular_map Demo.backend
           [Demo.white] [] Demo.two_uvs Demo.two_pixels 0 Demo.two_black Demo.two_black
           0%nat 0); simpl; try reflexivity; lia.
Defined.

(** ** The rays of the specular pass *)

Section Rays.
Context `{Backend}.

Lemma pixel_coords_length (h w : nat) : length (pixel_coords h w) = (h * w)%nat.
Proof.
  unfold pixel_coords.
  assert (Hrow : forall (y : Z) (xs : list Z),
    length (xs ≫= (fun x => [(y, x)])) = length xs).
  { intros y xs. induction xs as [|x xs IH]; [reflexivity|].
    rewrite bind_cons, length_app, IH. reflexivity. }
  assert (Hall : forall (ys xs : list Z),
    length (ys ≫= (fun y => xs ≫= (fun x => [(y, x)]))) = (length ys * length xs)%nat).
  { intros ys xs. induction ys as [|y ys IH]; [reflexivity|].
    rewrite bind_cons, length_app, IH, Hrow. reflexivity. }
  rewrite Hall, !length_seqZ, !Nat2Z.id. reflexivity.
Qed.

(** X8.  [generate_pinhole_rays_dir] needs a height and a width that are
    not negative.  When it returns, the result has one direction per pixel
    in the (1, height, width, 3) layout; the rays it hands to the camera
    for the change to world coordinates start at the origin and point down
    the camera's -z axis, one per pixel, and each returned direction is what
    the camera gave back divided by its norm. *)
Theorem generate_pinhole_rays_dir_returns
    (camera : camref) (height width : Z) (w w' : World) (rays : grid vec3) :
  generate_pinhole_rays_dir camera height width w = (Ok rays, w') ->
  0 <= height /\ 0 <= width
  /\ has_shape rays height width
  /\ exists ray_orig ray_dir ray_orig' ray_dir',
       inv_transform_rays (deref camera w) ray_orig ray_dir = Ok (ray_orig', ray_dir')
       /\ length ray_dir = (Z.to_nat height * Z.to_nat width)%nat
       /\ length ray_orig = length ray_dir
       /\ Forall (fun o => o = vec3_zero) ray_orig
       /\ Forall (fun d : vec3 => d.2 = F32.opp F32.one) ray_dir
       /\ gpix rays
          = (fun d => vec3_map (fun c => F32.div c (vector_norm d)) d) <$> ray_dir'.
Proof.
  unfold generate_pinhole_rays_dir.
  destruct (Z.ltb_spec height 0), (Z.ltb_spec width 0); cbn [orb]; try discriminate.
  intros E. unbind E.
  repeat match goal with
  | Hr : Ok (deref camera w) = Ok ?cam |- _ => injection Hr as <-
  end.
  match goal with
  | Hb : context [bool_decide ?P] |- _ => destruct (bool_decide_reflect P) as [Hlen|]
  end; [|discriminate].
  apply mret_Ok in E as [-> _].
  rewrite length_fmap in Hlen.
  split; [lia|]. split; [lia|]. split.
  - unfold has_shape, grid_wf. simpl. rewrite length_fmap. lia.
  - eexists _, _, _, _. split; [eassumption|].
    rewrite !length_fmap, pixel_coords_length.
    split; [reflexivity|]. split; [reflexivity|]. split; [|split; [|reflexivity]].
    + apply Forall_fmap, Forall_true. reflexivity.
    + apply Forall_fmap, Forall_true. intros [y x]. reflexivity.
Qed.

(** Negative dimensions stop the ray generator at [torch.arange]. *)
Lemma generate_pinhole_rays_dir_negative camera height width w :
  height < 0 \/ width < 0 ->
  generate_pinhole_rays_dir camera height width w = (Raise (RuntimeError "arange"), w).
Proof.
  intros Hneg. unfold generate_pinhole_rays_dir.
  destruct (Z.ltb_spec height 0), (Z.ltb_spec width 0); cbn [orb]; trivial; lia.
Qed.
End Rays.

Lemma generate_pinhole_rays_dir_returns_witness :
  exists rays,
    (@generate_pinhole_rays_dir Demo.backend VisualizerCamera 2 3 Demo.world).1 = Ok rays
    /\ has_shape rays 2 3.
Proof.
  destruct (@generate_pinhole_rays_dir Demo.backend VisualizerCamera 2 3 Demo.world)
    as [[rays|e] w'] eqn:E; [|vm_compute in E; discriminate].
  exists rays. split; [reflexivity|].
  apply (@generate_pinhole_rays_dir_returns Demo.backend _ _ _ _ _ _ E).
Defined.

(** ** Whole numbers in float32 *)

Section WholeFloats.
Import SpecFloat.

Lemma iter_xO_pow2 (m p : positive) : Z.pos (Pos.iter xO m p) = Z.pos m * 2 ^ Z.pos p.
Proof.
  induction p as [|p IH] using Pos.peano_ind.
  - simpl. lia.
  - rewrite Pos.iter_succ, Pos2Z.inj_xO, IH, Pos2Z.inj_succ, Z.pow_succ_r by lia. lia.
Qed.

(** A whole number below 2^24 is a float32: its mantissa is only shifted
    to 24 digits. *)
Lemma of_Z_whole (m : positive) :
  Z.pos m < 2 ^ 24 ->
  let d := Z.pos (digits2_pos m) in
  F32.of_Z (Z.pos m) = S754_finite false (Z.to_pos (Z.pos m * 2 ^ (24 - d))) (d - 24).
Proof.
  intros Hm d.
  pose proof (digits2_pos_bounds m) as [Hlo Hhi]. fold d in Hlo, Hhi.
  assert (Hd : 1 <= d <= 24).
  { split; [unfold d; lia|].
    destruct (Z.leb_spec d 24); trivial. exfalso.
    assert (2 ^ 24 <= 2 ^ (d - 1)) by (apply Z.pow_le_mono_r; lia). lia. }
  set (P := Z.pos m * 2 ^ (24 - d)).
  assert (HP : 2 ^ 23 <= P < 2 ^ 24).
  { unfold P. split.
    - replace 23 with ((d - 1) + (24 - d)) by lia.
      rewrite Z.pow_add_r by lia.
      apply Z.mul_le_mono_nonneg_r; [apply Z.pow_nonneg|]; lia.
    - replace 24 with (d + (24 - d)) at 2 by lia.
      rewrite Z.pow_add_r by lia.
      apply Z.mul_lt_mono_pos_r; [apply Z.pow_pos_nonneg|]; lia. }
  assert (Hdigits : Z.pos (digits2_pos (Z.to_pos P)) = 24).
  { apply digits2_pos_unique. rewrite Z2Pos.id by lia. exact HP. }
  unfold F32.of_Z, F32.prec, F32.emax, binary_normalize, binary_round.
  fold d.
  replace (fexp 24 128 (d + 0)) with (d - 24) by (unfold fexp, emin; lia).
  assert (Halign : shl_align m 0 (d - 24) = (Z.to_pos P, d - 24)).
  { unfold shl_align, P. destruct (d - 24 - 0) as [|p|p] eqn:E; [|lia|].
    - replace (24 - d) with 0 by lia. replace (d - 24) with 0 by lia.
      rewrite Z.mul_1_r. reflexivity.
    - f_equal. apply Pos2Z.inj. rewrite iter_xO_pow2.
      replace (24 - d) with (Z.pos p) by lia.
      rewrite Z2Pos.id; [reflexivity|].
      apply Z.mul_pos_pos; [lia|]. apply Z.pow_pos_nonneg; lia. }
  rewrite Halign.
  unfold binary_round_aux, shr_fexp.
  cbn [Zdigits2]. rewrite Hdigits.
  replace (fexp 24 128 (24 + (d - 24)) - (d - 24)) with 0 by (unfold fexp, emin; lia).
  cbn [shr shr_record_of_loc shr_m shr_r shr_s loc_of_shr_record round_nearest_even].
  cbn [Zdigits2]. rewrite Hdigits.
  replace (fexp 24 128 (24 + (d - 24)) - (d - 24)) with 0 by (unfold fexp, emin; lia).
  cbn [shr shr_record_of_loc shr_m].
  destruct (Z.leb_spec (d - 24) (128 - 24)); [reflexivity | lia].
Qed.

(** [float(k).long()] is [k] again for a whole number below 2^24. *)
Lemma trunc_of_Z (k : Z) : 0 <= k < 2 ^ 24 -> F32.trunc (F32.of_Z k) = Some k.
Proof.
  intros Hk. destruct k as [|m|m]; [reflexivity| |lia].
  rewrite of_Z_whole by lia. cbv zeta.
  pose proof (digits2_pos_bounds m) as [Hlo Hhi].
  set (d := Z.pos (digits2_pos m)) in *.
  assert (Hd : 1 <= d <= 24).
  { split; [unfold d; lia|].
    destruct (Z.leb_spec d 24); trivial. exfalso.
    assert (2 ^ 24 <= 2 ^ (d - 1)) by (apply Z.pow_le_mono_r; lia). lia. }
  unfold F32.trunc.
  rewrite Z2Pos.id by (apply Z.mul_pos_pos; [|apply Z.pow_pos_nonneg]; lia).
  destruct (Z.leb_spec 0 (d - 24)).
  - replace (d - 24) with 0 by lia. replace (24 - d) with 0 by lia.
    rewrite Z.shiftl_0_r. f_equal. lia.
  - rewrite Z.shiftr_div_pow2 by lia.
    replace (- (d - 24)) with (24 - d) by lia.
    rewrite Z.div_mul by (apply Z.pow_nonzero; lia). reflexivity.
Qed.

Lemma nonzero_of_Z (k : Z) : 0 < k < 2 ^ 24 -> F32.nonzero (F32.of_Z k) = true.
Proof.
  intros Hk. destruct k as [|m|m]; [lia| |lia].
  rewrite of_Z_whole by lia. reflexivity.
Qed.

(** Only the two zeros compare equal to 0. *)
Lemma nonzero_false (x : F32.t) : F32.nonzero x = false -> F32.trunc x = Some 0.
Proof. destruct x as [s|s| |s m e]; try discriminate; try destruct s; trivial; discriminate. Qed.
End WholeFloats.

Lemma wrap_signed_small (n : Z) : - 2 ^ 63 <= n < 2 ^ 63 -> wrap_signed 64 n = n.
Proof.
  intros Hn. unfold wrap_signed.
  change (2 ^ (64 - 1)) with (2 ^ 63).
  rewrite Z.mod_small; [lia|]. change (2 ^ 64) with (2 * 2 ^ 63). lia.
Qed.

(** ** The orientation of the returned buffers *)

Section Flip.
Context {P : Type}.
Implicit Types (l : list P) (n cols y x : nat).

Lemma flip_length n cols l :
  length (concat (reverse (chunks n cols l))) = Nat.min (n * cols) (length l).
Proof.
  revert l. induction n as [|n IH]; intros l; [reflexivity|].
  cbn [chunks]. rewrite reverse_cons, concat_app, length_app, IH.
  cbn [concat]. rewrite app_nil_r, length_take, length_drop. simpl. lia.
Qed.

(** Row [y] of the flipped image is row [n - 1 - y] of the image. *)
Lemma flip_lookup n cols l y x :
  (n * cols <= length l)%nat -> (y < n)%nat -> (x < cols)%nat ->
  concat (reverse (chunks n cols l)) !! (y * cols + x)%nat
  = l !! ((n - 1 - y) * cols + x)%nat.
Proof.
  revert l. induction n as [|n IH]; intros l Hlen Hy Hx; [lia|].
  cbn [chunks]. rewrite reverse_cons, concat_app. cbn [concat]. rewrite app_nil_r.
  simpl in Hlen.
  assert (Hrest : length (concat (reverse (chunks n cols (drop cols l)))) = (n * cols)%nat).
  { rewrite flip_length, length_drop. lia. }
  destruct (decide (y < n)%nat) as [Hlt|Hge].
  - rewrite lookup_app_l by (rewrite Hrest; nia).
    rewrite IH by (try rewrite length_drop; lia).
    rewrite lookup_drop. f_equal.
    replace (S n - 1 - y)%nat with (S (n - 1 - y)) by lia. simpl. lia.
  - assert (y = n) as -> by lia.
    rewrite lookup_app_r by (rewrite Hrest; lia).
    rewrite Hrest.
    replace (n * cols + x - n * cols)%nat with x by lia.
    replace (S n - 1 - n)%nat with O by lia. simpl.
    apply lookup_take_lt. exact Hx.
Qed.
End Flip.

Section FaceIndex.
Context `{Backend}.

(** X9.  The buffers [base_render] returns are upside down with respect to
    the rasterizer's output: row [y] of [face_idx], and of the coverage
    mask that blanks the image, is row [height - 1 - y] of the rasterizer.
    [face_idx] holds the triangle id minus one: -1 wherever the id is 0
    (nothing drawn, the pixels the mask blanks), and [k - 1] wherever the
    rasterizer wrote the whole number [k] below 2^24, which the mask
    counts as covered. *)
Theorem base_render_face_idx
    (mesh : Mesh) (camera : camref) (height width : Z) (w w' : World) (r : RenderResult) :
  base_render mesh camera height width w = (Ok r, w') ->
  exists vertices_clip rast,
    rasterize vertices_clip (face_map to_int32 <$> faces mesh) height width = Ok rast
    /\ forall y x : nat, (y < Z.to_nat height)%nat -> (x < Z.to_nat width)%nat ->
         exists p,
           gpix rast !! ((Z.to_nat height - 1 - y) * Z.to_nat width + x)%nat = Some p
           /\ gpix (coverage rast) !! (y * Z.to_nat width + x)%nat
              = Some (F32.nonzero (tri_id p))
           /\ gpix (face_idx r) !! (y * Z.to_nat width + x)%nat
              = Some (to_long (tri_id p) - 1)
           /\ (F32.nonzero (tri_id p) = false -> to_long (tri_id p) - 1 = -1)
           /\ (forall k, 0 < k < 2 ^ 24 -> tri_id p = F32.of_Z k ->
                 F32.nonzero (tri_id p) = true /\ to_long (tri_id p) - 1 = k - 1).
Proof.
  intros E.
  apply base_render_Ok in E
    as (clip & rast & lit & Hrast & Hidx & _ & _ & Hrows & Hcols & Hlen & _ & Hshown).
  apply grid_zip_Ok in Hshown as (Hext & _).
  apply same_extent_spec in Hext as (Hr & Hc & Hl).
  unfold coverage in Hr, Hc, Hl. simpl in Hr, Hc, Hl.
  rewrite length_fmap, flip_length in Hl.
  exists clip, rast. split; [exact Hrast|].
  intros y x Hy Hx.
  assert (Hin : ((Z.to_nat height - 1 - y) * Z.to_nat width + x < length (gpix rast))%nat)
    by nia.
  destruct (lookup_lt_is_Some_2 _ _ Hin) as [p Hp].
  assert (Hflip : gpix (grid_flip rast) !! (y * Z.to_nat width + x)%nat = Some p).
  { unfold grid_flip. simpl. rewrite <- Hr, <- Hc, Hrows, Hcols.
    rewrite flip_lookup by lia. exact Hp. }
  exists p. split; [exact Hp|]. split; [|split; [|split]].
  - unfold coverage. simpl. rewrite list_lookup_fmap.
    unfold grid_flip in Hflip. simpl in Hflip. now rewrite Hflip.
  - rewrite Hidx. simpl. rewrite list_lookup_fmap.
    unfold grid_flip in Hflip. simpl in Hflip. now rewrite Hflip.
  - intros Hzero. unfold to_long. rewrite (nonzero_false _ Hzero). reflexivity.
  - intros k Hk ->. split; [now apply nonzero_of_Z|].
    unfold to_long. rewrite trunc_of_Z by lia. simpl.
    rewrite wrap_signed_small; [reflexivity|]. lia.
Qed.
End FaceIndex.

Lemma base_render_face_idx_witness :
  exists vertices_clip rast,
    @rasterize Demo.backend vertices_clip (face_map to_int32 <$> faces (mesh Demo.globals)) 2 3
    = Ok rast
    /\ gpix (face_idx Demo.rendered) = [0; -1; -1; 0; -1; -1].
Proof.
  destruct (@base_render_face_idx Demo.backend (mesh Demo.globals) VisualizerCamera 2 3
              Demo.world Demo.world Demo.rendered) as (clip & rast & Hrast & _).
  - vm_compute. reflexivity.
  - exists clip, rast. split; [exact Hrast|]. vm_compute. reflexivity.
Defined.

(** ** The sizes a render is asked for *)

Section Sizes.
Context `{Backend}.

Lemma base_render_img_extent mesh camera height width w r w' :
  base_render mesh camera height width w = (Ok r, w') ->
  0 <= height /\ 0 <= width
  /\ grows (img r) = Z.to_nat height /\ gcols (img r) = Z.to_nat width
  /\ length (gpix (img r)) = (Z.to_nat height * Z.to_nat width)%nat.
Proof.
  intros E.
  apply base_render_Ok in E
    as (clip & rast & lit & _ & _ & Hh & Hw & Hrows & Hcols & Hlen & _ & Hshown).
  apply grid_zip_Ok in Hshown as (Hext & Hr & Hc & Hpix).
  apply same_extent_spec in Hext as (_ & _ & Hl).
  rewrite Hr, Hc, Hpix, length_zip_with, <- Hl, Hrows, Hcols, Hlen.
  repeat split; lia.
Qed.

Lemma lowres_render_unfold camera w :
  Z.abs (cam_height (deref camera w)) < 2 ^ 53 ->
  Z.abs (cam_width (deref camera w)) < 2 ^ 53 ->
  lowres_render camera w
  = base_render (mesh (nb w)) camera (Z.quot (cam_height (deref camera w)) 4)
      (Z.quot (cam_width (deref camera w)) 4) w.
Proof.
  intros Hh Hw.
  pose proof (py_int_quarter _ Hh) as Eh. pose proof (py_int_quarter _ Hw) as Ew.
  unfold mbind in Eh, Ew.
  unfold lowres_render. run_calls. rewrite Eh, Ew. reflexivity.
Qed.

(** X10.  For a camera of [h] by [w] pixels (both below 2^53) the image
    the fast path returns is [h // 4] by [w // 4]: at most a sixteenth of
    the pixels of the full frame, and no pixel at all once the camera is
    less than 4 pixels high or wide. *)
Theorem lowres_render_image (camera : camref) (w w' : World) (r : RenderResult) :
  let h := cam_height (deref camera w) in
  let wd := cam_width (deref camera w) in
  0 <= h < 2 ^ 53 -> 0 <= wd < 2 ^ 53 ->
  lowres_render camera w = (Ok r, w') ->
  has_shape (img r) (h / 4) (wd / 4)
  /\ 16 * Z.of_nat (length (gpix (img r))) <= h * wd
  /\ (h < 4 \/ wd < 4 -> gpix (img r) = []).
Proof.
  intros h wd Hh Hw E.
  rewrite lowres_render_unfold in E by (fold h wd; lia). fold h wd in E.
  apply base_render_img_extent in E as (_ & _ & Hrows & Hcols & Hlen).
  rewrite !Z.quot_div_nonneg in * by lia.
  pose proof (Z.div_mod h 4 ltac:(lia)) as Dh.
  pose proof (Z.mod_pos_bound h 4 ltac:(lia)) as Bh.
  pose proof (Z.div_mod wd 4 ltac:(lia)) as Dw.
  pose proof (Z.mod_pos_bound wd 4 ltac:(lia)) as Bw.
  assert (0 <= h / 4) by (apply Z.div_pos; lia).
  assert (0 <= wd / 4) by (apply Z.div_pos; lia).
  split; [|split].
  - unfold has_shape, grid_wf. rewrite Hrows, Hcols, Hlen. repeat split; lia.
  - rewrite Hlen, Nat2Z.inj_mul, !Z2Nat.id by lia. nia.
  - intros Hsmall. apply length_zero_iff_nil. rewrite Hlen.
    destruct Hsmall.
    + replace (h / 4) with 0 by (symmetry; apply Z.div_small; lia). reflexivity.
    + replace (wd / 4) with 0 by (symmetry; apply Z.div_small; lia). simpl. lia.
Qed.

(** X11.  No render returns for a negative height or width: [base_render]
    stops (at the latest when it allocates its buffers), the ray generator
    stops at once, and so does [render] on a camera whose height or width
    is negative. *)
Theorem negative_size_is_rejected
    (mesh : Mesh) (camera : camref) (height width : Z) (w : World) :
  (height < 0 \/ width < 0 ->
     is_ok (base_render mesh camera height width w).1 = false
     /\ (generate_pinhole_rays_dir camera height width w).1 = Raise (RuntimeError "arange"))
  /\ (cam_height (deref camera w) < 0 \/ cam_width (deref camera w) < 0 ->
      is_ok (render camera w).1 = false).
Proof.
  assert (Hbase : forall mesh height width, height < 0 \/ width < 0 ->
    is_ok (base_render mesh camera height width w).1 = false).
  { clear. intros mesh height width Hneg.
    destruct (base_render mesh camera height width w) as [[r|e] w'] eqn:E; [|reflexivity].
    apply base_render_img_extent in E. lia. }
  split.
  - intros Hneg. split; [now apply Hbase|].
    now rewrite generate_pinhole_rays_dir_negative.
  - intros Hneg. rewrite render_unfold. now apply Hbase.
Qed.
End Sizes.

Lemma lowres_render_image_witness :
  exists r,
    (@lowres_render Demo.backend NotebookCamera Demo.world).1 = Ok r
    /\ has_shape (img r) 2 3
    /\ 16 * Z.of_nat (length (gpix (img r))) <= 8 * 12.
Proof.
  destruct (@lowres_render Demo.backend NotebookCamera Demo.world) as [[r|e] w'] eqn:E;
    [|vm_compute in E; discriminate].
  exists r. split; [reflexivity|].
  destruct (@lowres_render_image Demo.backend NotebookCamera Demo.world w' r)
    as (Hshape & Hcount & _).
  - simpl. lia.
  - simpl. lia.
  - exact E.
  - split; [exact Hshape | exact Hcount].
Defined.

Lemma negative_size_is_rejected_witness :
  is_ok (@base_render Demo.backend Demo.triangle VisualizerCamera (-1) 3 Demo.world).1 = false
  /\ is_ok (@render Demo.backend VisualizerCamera
              (set_vis (set_vis_camera (Demo.eye 2 (-3))) Demo.world)).1 = false.
Proof.
  split.
  - apply (@negative_size_is_rejected Demo.backend Demo.triangle VisualizerCamera (-1) 3
             Demo.world). lia.
  - apply (@negative_size_is_rejected Demo.backend Demo.triangle VisualizerCamera 0 0
             (set_vis (set_vis_camera (Demo.eye 2 (-3))) Demo.world)).
    simpl. lia.
Defined.

(** ** The view of the two render paths *)

Section SharedView.
Context `{Backend}.

Lemma base_render_clip mesh camera height width w r w' :
  base_render mesh camera height width w = (Ok r, w') ->
  exists clip rast,
    clip_vertices mesh (deref camera w) = Ok clip
    /\ rasterize clip (face_map to_int32 <$> faces mesh) height width = Ok rast
    /\ face_idx r = grid_map (fun p => to_long (tri_id p) - 1) (grid_flip rast).
Proof.
  unfold base_render. intros E.
  do 9 unbind_one E.
  repeat match goal with
  | Hr : Ok _ = Ok ?x |- _ => injection Hr as <-
  end.
  match goal with
  | Hr : rasterize ?c _ _ _ = Ok ?g |- _ => exists c, g; split; [|split; [exact Hr|]]
  end.
  - unfold clip_vertices.
    repeat match goal with
    | Hc : ?o = Ok _ |- context [?o] => rewrite Hc; simpl
    end.
    reflexivity.
  - unbind E. apply mret_Ok in E as [-> _]. reflexivity.
Qed.

(** X12.  A fast frame shows the same view as the full frame: for the
    same camera both paths hand the rasterizer the same clip-space
    vertices and the same faces, computed from the camera itself and not
    from the reduced size; only the resolution they ask for differs. *)
Theorem fast_frame_shares_the_view
    (camera : camref) (w w1 w2 : World) (full fast : RenderResult) :
  let h := cam_height (deref camera w) in
  let wd := cam_width (deref camera w) in
  Z.abs h < 2 ^ 53 -> Z.abs wd < 2 ^ 53 ->
  render camera w = (Ok full, w1) ->
  lowres_render camera w = (Ok fast, w2) ->
  exists clip rast rast',
    clip_vertices (mesh (nb w)) (deref camera w) = Ok clip
    /\ rasterize clip (face_map to_int32 <$> faces (mesh (nb w))) h wd = Ok rast
    /\ rasterize clip (face_map to_int32 <$> faces (mesh (nb w)))
         (Z.quot h 4) (Z.quot wd 4) = Ok rast'
    /\ face_idx full = grid_map (fun p => to_long (tri_id p) - 1) (grid_flip rast)
    /\ face_idx fast = grid_map (fun p => to_long (tri_id p) - 1) (grid_flip rast').
Proof.
  intros h wd Hh Hw Efull Efast.
  rewrite render_unfold in Efull.
  rewrite lowres_render_unfold in Efast by assumption.
  apply base_render_clip in Efull as (clip & rast & Hclip & Hrast & Hidx).
  apply base_render_clip in Efast as (clip' & rast' & Hclip' & Hrast' & Hidx').
  rewrite Hclip in Hclip'. injection Hclip' as <-.
  exists clip, rast, rast'. auto.
Qed.
End SharedView.

Lemma fast_frame_shares_the_view_witness :
  exists clip rast rast',
    @clip_vertices Demo.backend (mesh (nb Demo.world)) (deref NotebookCamera Demo.world)
    = Ok clip
    /\ @rasterize Demo.backend clip (face_map to_int32 <$> faces (mesh (nb Demo.world))) 8 12
       = Ok rast
    /\ @rasterize Demo.backend clip (face_map to_int32 <$> faces (mesh (nb Demo.world))) 2 3
       = Ok rast'.
Proof.
  destruct (@render Demo.backend NotebookCamera Demo.world) as [[full|e] w1] eqn:Efull;
    [|vm_compute in Efull; discriminate].
  destruct (@lowres_render Demo.backend NotebookCamera Demo.world) as [[fast|e] w2] eqn:Efast;
    [|vm_compute in Efast; discriminate].
  destruct (@fast_frame_shares_the_view Demo.backend NotebookCamera Demo.world w1 w2 full fast)
    as (clip & rast & rast' & Hclip & Hrast & Hrast' & _).
  - vm_compute. reflexivity.
  - vm_compute. reflexivity.
  - exact Efull.
  - exact Efast.
  - exists clip, rast, rast'. auto.
Defined.

(** ** The specular flag *)

(** Two sequences that start with the same read-only call agree when their
    continuations agree on what that call returns. *)
Lemma bind_cong {A B : Type} (m : M A) (f g : A -> M B) (w : World) :
  (forall a, m w = (Ok a, w) -> f a w = g a w) -> readonly m ->
  (m ≫= f) w = (m ≫= g) w.
Proof.
  intros Hfg Hro. unfold mbind, M_bind. specialize (Hro w).
  destruct (m w) as [[a|e] w1]; simpl in Hro; subst w1; [now apply Hfg | reflexivity].
Qed.

Section SpecularOff.
Context (B : Backend).

(** X13.  With [apply_specular] off, [base_render] (and with it [render]
    and [lowres_render]) calls neither the ray generator nor the specular
    term: the outcome is the same whatever the camera's ray transform and
    field of view, the specular term and the ray norm would do, even if
    they would raise. *)
Theorem specular_off_skips_specular_pass
    (inv_rays : Camera -> list vec3 -> list vec3 -> outcome (list vec3 * list vec3))
    (tan_fov : Camera -> fov_axis -> outcome F32.t)
    (specular_term : list vec3 -> list vec3 -> list F32.t -> list vec3 -> list F32.t
                     -> list vec3 -> list vec3 -> outcome (list vec3))
    (norm : vec3 -> F32.t)
    (mesh : Mesh) (camera : camref) (height width : Z) (w : World) :
  apply_specular (nb w) = false ->
  let B' := with_specular_services B inv_rays tan_fov specular_term norm in
  @base_render B' mesh camera height width w = @base_render B mesh camera height width w
  /\ @render B' camera w = @render B camera w
  /\ @lowres_render B' camera w = @lowres_render B camera w.
Proof.
  intros Hoff B'.
  assert (Hbase : forall mesh height width,
    @base_render B' mesh camera height width w = @base_render B mesh camera height width w).
  { clear mesh height width. intros mesh height width.
    unfold base_render.
    change (@to_display B') with (@to_display B).
    change (@to_long B') with (@to_long B).
    change (@texture_materials B') with (@texture_materials B).
    repeat match goal with
    | |- (let '(_, _) := ?p in _) _ = _ => destruct p
    | |- (?m ≫= ?f) w = (_ ≫= ?g) w =>
        apply (bind_cong m f g w); [|repeat readonly_step];
        let a := fresh "a" in
        let Ha := fresh "Ha" in
        intros a Ha;
        try match type of Ha with
            | read_global apply_specular _ = _ =>
                apply gets_Ok in Ha as [-> _]; rewrite Hoff; cbv iota
            end
    end.
    reflexivity. }
  split; [apply Hbase|]. split.
  - unfold render.
    repeat match goal with
    | |- (?m ≫= ?f) w = (_ ≫= ?g) w =>
        apply (bind_cong m f g w); [intros ? _ | repeat readonly_step]
    end.
    apply Hbase.
  - unfold lowres_render.
    repeat match goal with
    | |- (?m ≫= ?f) w = (_ ≫= ?g) w =>
        apply (bind_cong m f g w); [intros ? _ | repeat readonly_step]
    end.
    apply Hbase.
Qed.
End SpecularOff.

Lemma specular_off_skips_specular_pass_witness :
  @render Demo.diffuse_only_backend VisualizerCamera Demo.matte
  = @render Demo.backend VisualizerCamera Demo.matte
  /\ is_ok (@render Demo.backend VisualizerCamera Demo.matte).1 = true
  /\ is_ok (@render Demo.diffuse_only_backend VisualizerCamera Demo.world).1 = false.
Proof.
  split; [|split; vm_compute; reflexivity].
  apply (specular_off_skips_specular_pass Demo.backend
           (fun _ _ _ => Raise (RuntimeError "no rays"))
           (fun _ _ => Raise (RuntimeError "no field of view"))
           (fun _ _ _ _ _ _ _ => Raise (RuntimeError "no specular term"))
           (fun _ => SpecFloat.S754_nan)
           Demo.triangle VisualizerCamera 0 0 Demo.matte).
  reflexivity.
Defined.

(** ** Reading back what a masked write wrote *)

Section MaskRoundTrip.
Context {P : Type}.
Implicit Types (l vals : list P) (mask : list bool).

Lemma count_true_cons (b : bool) mask :
  count_true (b :: mask) = ((if b then 1 else 0) + count_true mask)%nat.
Proof.
  unfold count_true. destruct b.
  - rewrite filter_cons_True by reflexivity. reflexivity.
  - rewrite filter_cons_False by discriminate. reflexivity.
Qed.

Lemma select_length l mask :
  length l = length mask -> length (select l mask) = count_true mask.
Proof.
  revert mask. induction l as [|x l IH]; intros [|b mask] Hlen; try discriminate;
    [reflexivity|].
  rewrite count_true_cons. simpl in *. destruct b; simpl; rewrite IH by lia; reflexivity.
Qed.

(** [t[mask] = vals] followed by [t[mask]] gives [vals] back. *)
Lemma select_scatter l mask vals :
  length l = length mask -> length vals = count_true mask ->
  select (scatter l mask vals) mask = vals.
Proof.
  revert mask vals. induction l as [|x l IH]; intros [|b mask] vals Hlen Hvals;
    try discriminate.
  - destruct vals; [reflexivity | discriminate].
  - rewrite count_true_cons in Hvals. simpl in *. destruct b.
    + destruct vals as [|v vals]; [discriminate|]. simpl. f_equal. apply IH; simpl in *; lia.
    + apply IH; lia.
Qed.

Lemma broadcast_rows_length (n : nat) vals vals' :
  broadcast_rows n vals = Ok vals' -> length vals' = n.
Proof.
  unfold broadcast_rows. destruct (bool_decide_reflect (length vals = n)) as [Hn|_].
  - now intros [= <-].
  - destruct vals as [|v [|? ?]]; try discriminate.
    intros [= <-]. apply length_replicate.
Qed.

Lemma masked_assign_select (g : grid P) (mask : grid bool) vals g' :
  masked_assign g mask vals = Ok g' ->
  exists vals', broadcast_rows (count_true (gpix mask)) vals = Ok vals'
                /\ select (gpix g') (gpix mask) = vals'.
Proof.
  unfold masked_assign. destruct (same_extent g mask) eqn:Hext; [|discriminate].
  apply same_extent_spec in Hext as (_ & _ & Hlen).
  destruct (broadcast_rows _ vals) as [vals'|e] eqn:Hb; simpl; [|discriminate].
  intros [= <-]. exists vals'. split; [reflexivity|]. simpl.
  apply select_scatter; [exact Hlen|]. now apply broadcast_rows_length in Hb.
Qed.
End MaskRoundTrip.

(** [t[mask] += vals] leaves under the mask the sum of what was there and
    [vals]. *)
Lemma masked_add_select (g : grid vec3) (mask : grid bool) vals g' :
  masked_add g mask vals = Ok g' ->
  exists vals', broadcast_rows (count_true (gpix mask)) vals = Ok vals'
                /\ select (gpix g') (gpix mask)
                   = zip_with (vec3_zip F32.add) (select (gpix g) (gpix mask)) vals'.
Proof.
  unfold masked_add, masked_select.
  destruct (same_extent g mask) eqn:Hext; [|discriminate].
  pose proof Hext as Hext'.
  apply same_extent_spec in Hext' as (_ & _ & Hlen).
  unfold mbind at 1. unfold outcome_bind.
  rewrite (select_length _ _ Hlen).
  destruct (broadcast_rows _ vals) as [vals'|e] eqn:Hb; [|discriminate].
  unfold mbind, outcome_bind. intros Hassign.
  apply masked_assign_select in Hassign as (sum & Hsum & Hsel).
  exists vals'. split; [reflexivity|]. rewrite Hsel.
  apply broadcast_rows_length in Hb.
  unfold broadcast_rows in Hsum.
  destruct (bool_decide_reflect
              (length (zip_with (vec3_zip F32.add) (select (gpix g) (gpix mask)) vals')
               = count_true (gpix mask))) as [_|Hno].
  - now injection Hsum as <-.
  - exfalso. apply Hno. rewrite length_zip_with, (select_length _ _ Hlen), Hb. lia.
Qed.

Lemma masked_select_Ok {P : Type} (g : grid P) (mask : grid bool) (vals : list P) :
  masked_select g mask = Ok vals -> vals = select (gpix g) (gpix mask).
Proof.
  unfold masked_select. destruct (same_extent g mask); [|discriminate].
  now intros [= <-].
Qed.

Section LitImage.
Context `{Backend}.

(** X14.  What [base_render] puts under the coverage mask.  Every value
    is named by the call that made it.  The normals are the interpolated
    normals of the mesh, flipped by the sign of the camera-space normal of
    the face under the pixel; the albedos are what the loop over the
    materials wrote, from the uv map taken modulo 1.  The diffuse term is
    computed once, from the notebook's amplitude and sharpness, the light
    directions in x, z, y order and the normals and diffuse albedo under
    the mask, and is written under the mask.  With [apply_specular] off,
    reading the lit image back under the mask gives this term; with it on,
    it gives this term plus, pixel by pixel, the specular term computed
    from the same lights and normals, a roughness of 0.5 for every covered
    pixel, the negated rays of the ray generator and the specular albedo
    under the mask.  The returned image is the conversion of this lit
    image. *)
Theorem base_render_lights_covered_pixels
    (mesh : Mesh) (camera : camref) (height width : Z) (w w' : World) (r : RenderResult) :
  base_render mesh camera height width w = (Ok r, w') ->
  let cam := deref camera w in
  exists vertices_camera face_vertices_camera face_normals_cam proj homogeneous_vecs
         vertices_clip rast,
    let rast0 := grid_flip rast in
    let hard_mask := coverage rast in
    let faces_seen := grid_map (fun p => to_long (tri_id p) - 1) rast0 in
    extrinsics_transform cam (vertices mesh) = Ok vertices_camera
    /\ index_vertices_by_faces vertices_camera (faces mesh) = Ok face_vertices_camera
    /\ face_normals face_vertices_camera = Ok face_normals_cam
    /\ projection_matrix cam = Ok proj
    /\ up_to_homogeneous vertices_camera = Ok homogeneous_vecs
    /\ matmul proj homogeneous_vecs = Ok vertices_clip
    /\ rasterize vertices_clip (face_map to_int32 <$> faces mesh) height width = Ok rast
    /\ exists uv_map world_normals im_cam_normals im_world_normals material_of_face
              im_material_idx black albedo spec_albedo,
       interpolate_uv (uvs mesh) rast0 (face_map to_int32 <$> face_uvs_idx mesh) = Ok uv_map
       /\ match normals mesh, face_normals_idx mesh with
          | Some normals, Some idx =>
              interpolate_normal normals rast0 (face_map to_int32 <$> idx)
          | _, _ =>
              fn ← mesh_face_normals mesh;
              interpolate_normal (fn ≫= (fun t => [t.1.1; t.1.2; t.2])) rast0
                (arange_faces (length (faces mesh)))
          end = Ok world_normals
       /\ grid_mapM (fun f =>
            z ← py_index ((fun n : vec3 => n.2) <$> face_normals_cam) f;
            Ok (F32.mul z (F32.of_bool (negb (f =? -1))))) faces_seen = Ok im_cam_normals
       /\ grid_zip (fun n s => vec3_map (fun c => F32.mul c (F32.sign s)) n)
            world_normals im_cam_normals = Ok im_world_normals
       /\ grid_mapM (py_index (material_assignments mesh)) faces_seen = Ok material_of_face
       /\ grid_zip (fun m f => if f =? -1 then -1 else m) material_of_face faces_seen
          = Ok im_material_idx
       /\ grid_zeros height width = Ok black
       /\ texture_materials 0 (diffuse_maps (nb w)) (specular_maps (nb w))
            (grid_map (fun uv : vec2 => (remainder_one uv.1, remainder_one uv.2)) uv_map)
            im_material_idx black black = Ok (albedo, spec_albedo)
       /\ exists sg_x sg_y sg_z diffuse_effect diffuse lit,
          let directions := zip (zip sg_x sg_z) sg_y in
          let lit_normals := select (gpix im_world_normals) (gpix hard_mask) in
          spherical2cartesian (azimuth (nb w)) (elevation (nb w)) = Ok (sg_x, sg_y, sg_z)
          /\ sg_diffuse_inner_product (amplitude (nb w)) directions (sharpness (nb w))
               lit_normals (select (gpix albedo) (gpix hard_mask)) = Ok diffuse_effect
          /\ broadcast_rows (count_true (gpix hard_mask)) diffuse_effect = Ok diffuse
          /\ (if apply_specular (nb w) then
                exists rays_d specular_effect specular,
                  (generate_pinhole_rays_dir camera height width w).1 = Ok rays_d
                  /\ sg_warp_specular_term (amplitude (nb w)) directions (sharpness (nb w))
                       lit_normals (replicate (length lit_normals) F32.half)
                       (vec3_map F32.opp <$> select (gpix rays_d) (gpix hard_mask))
                       (select (gpix spec_albedo) (gpix hard_mask)) = Ok specular_effect
                  /\ broadcast_rows (count_true (gpix hard_mask)) specular_effect
                     = Ok specular
                  /\ select (gpix lit) (gpix hard_mask)
                     = zip_with (vec3_zip F32.add) diffuse specular
              else select (gpix lit) (gpix hard_mask) = diffuse)
          /\ grid_zip to_display lit hard_mask = Ok (img r)
          /\ face_idx r = faces_seen.
Proof.
  unfold base_render. intros E. unbind E.
  apply mret_Ok in E as [-> _].
  (* the calls only read the world *)
  repeat match goal with
  | Hn : ?m w = (Ok _, ?w0) |- _ =>
      assert_fails (constr_eq w0 w);
      assert (w0 = w) as ->
        by (assert (Hro : readonly m)
              by repeat (readonly_step || apply generate_pinhole_rays_dir_readonly);
            specialize (Hro w); rewrite Hn in Hro; exact Hro)
  end.
  repeat match goal with
  | Hr : Ok _ = Ok ?x |- _ => injection Hr as <-
  end.
  repeat match goal with
  | Hs : masked_select _ _ = Ok ?vals |- _ => apply masked_select_Ok in Hs; subst vals
  end.
  match goal with
  | Hr : rasterize ?c _ _ _ = Ok ?g |- _ => rename g into rast
  end.
  fold (coverage rast) in *.
  match goal with
  | Ha : grid_zeros height width = Ok ?a, Hb : grid_zeros height width = Ok ?b,
    Hc : grid_zeros height width = Ok ?c |- _ =>
      rewrite Ha in Hb, Hc; injection Hb as <-; injection Hc as <-
  end.
  match goal with
  | Hs : masked_assign _ _ _ = Ok _ |- _ =>
      apply masked_assign_select in Hs as (diffuse & Hbroadcast & Hsel)
  end.
  match goal with
  | Hd : grid_zip to_display ?g _ = Ok _ |- _ => rename g into lit, Hd into Hshown
  end.
  match goal with
  | Hz : @grid_zip vec3 F32.t vec3 _ ?g _ = Ok _ |- _ => rename g into world_normals
  end.
  assert (Hnormals :
    match normals mesh, face_normals_idx mesh with
    | Some normals, Some idx =>
        interpolate_normal normals (grid_flip rast) (face_map to_int32 <$> idx)
    | _, _ =>
        fn ← mesh_face_normals mesh;
        interpolate_normal (fn ≫= (fun t => [t.1.1; t.1.2; t.2])) (grid_flip rast)
          (arange_faces (length (faces mesh)))
    end = Ok world_normals).
  { assert (Hface : forall w0,
      (call (mesh_face_normals mesh)
       ≫= (fun fn => call (interpolate_normal (fn ≫= (fun t => [t.1.1; t.1.2; t.2]))
                            (grid_flip rast) (arange_faces (length (faces mesh)))))) w
      = (Ok world_normals, w0) ->
      (fn ← mesh_face_normals mesh;
       interpolate_normal (fn ≫= (fun t => [t.1.1; t.1.2; t.2])) (grid_flip rast)
         (arange_faces (length (faces mesh)))) = Ok world_normals).
    { intros w0 Hn. unbind Hn. apply call_Ok in Hn as [Hn _].
      match goal with
      | Hf : mesh_face_normals mesh = Ok _ |- _ => rewrite Hf
      end.
      exact Hn. }
    destruct (normals mesh) as [vertex_normals|];
      [destruct (face_normals_idx mesh) as [idx|]|];
      match goal with
      | Hn : _ w = (Ok world_normals, w) |- _ =>
          cbv beta iota in Hn |- *;
          first [ exact (Hface w Hn) | now apply call_Ok in Hn as [Hn _] ]
      end. }
  eexists _, _, _, _, _, _, rast.
  do 7 (split; [eassumption|]).
  eexists _, world_normals, _, _, _, _, _, _, _.
  split; [eassumption|]. split; [exact Hnormals|].
  do 6 (split; [eassumption|]).
  eexists _, _, _, _, diffuse, lit.
  split; [eassumption|]. split; [eassumption|]. split; [exact Hbroadcast|].
  split; [|split; [exact Hshown | reflexivity]].
  destruct (apply_specular (nb w)).
  - match goal with
    | Hb : (_ ≫= _) w = (Ok lit, _) |- _ => unbind Hb; rename Hb into Hadd
    end.
    match goal with
    | Hn : generate_pinhole_rays_dir _ _ _ w = (Ok ?rays, ?w0) |- _ =>
        assert (w0 = w) as ->
          by (pose proof (generate_pinhole_rays_dir_readonly camera height width w) as Hro;
              rewrite Hn in Hro; exact Hro);
        rename Hn into Hrays
    end.
    repeat match goal with
    | Hr : Ok _ = Ok ?x |- _ => injection Hr as <-
    end.
    repeat match goal with
    | Hs : masked_select _ _ = Ok ?vals |- _ => apply masked_select_Ok in Hs; subst vals
    end.
    apply call_Ok in Hadd as [Hadd _].
    apply masked_add_select in Hadd as (specular & Hbroadcast' & Hsum).
    eexists _, _, specular.
    split; [now rewrite Hrays|]. split; [eassumption|]. split; [exact Hbroadcast'|].
    now rewrite Hsum, Hsel.
  - match goal with
    | Hb : mret _ w = (Ok lit, _) |- _ => apply mret_Ok in Hb as [-> _]
    end.
    exact Hsel.
Qed.
End LitImage.

Lemma base_render_lights_covered_pixels_witness :
  exists lit diffuse specular,
    grid_zip (@to_display Demo.backend) lit
      (coverage (Grid 2 3 (Demo.first_column 2 3))) = Ok (img Demo.rendered)
    /\ length diffuse = 2%nat
    /\ select (gpix lit) (gpix (coverage (Grid 2 3 (Demo.first_column 2 3))))
       = zip_with (vec3_zip F32.add) diffuse specular.
Proof.
  assert (Hrun : @base_render Demo.backend (mesh Demo.globals) VisualizerCamera 2 3 Demo.world
                 = (Ok Demo.rendered, Demo.world)) by (vm_compute; reflexivity).
  pose proof (@base_render_lights_covered_pixels Demo.backend (mesh Demo.globals)
                VisualizerCamera 2 3 Demo.world Demo.world Demo.rendered Hrun) as Hlit.
  cbv zeta in Hlit.
  destruct Hlit as (vc & fvc & fnc & proj & hom & clip & rast
                    & _ & _ & _ & _ & _ & _ & Hrast & Hlit).
  assert (Hr : rast = Grid 2 3 (Demo.first_column 2 3)) by (injection Hrast; auto).
  subst rast.
  destruct Hlit as (uv & wn & cn & iwn & mof & mi & black & albedo & spec
                    & _ & _ & _ & _ & _ & _ & _ & _ & Hlit).
  destruct Hlit as (sg_x & sg_y & sg_z & effect & diffuse & lit
                    & _ & _ & Hbroadcast & Hsum & Hshown & _).
  change (apply_specular (nb Demo.world)) with true in Hsum.
  destruct Hsum as (rays & specular_effect & specular & _ & _ & _ & Hsum).
  exists lit, diffuse, specular. split; [exact Hshown|]. split; [|exact Hsum].
  apply broadcast_rows_length in Hbroadcast. exact Hbroadcast.
Defined.

(** ** The callbacks over a whole session *)

Lemma slider_writes_keeps (e a m s : F64.t) (g : Globals) :
  let g' := slider_writes e a m s g in
  (mesh g' = mesh g /\ diffuse_maps g' = diffuse_maps g
   /\ specular_maps g' = specular_maps g /\ camera g' = camera g
   /\ apply_specular g' = apply_specular g)
  /\ (length (elevation g') = length (elevation g)
      /\ length (azimuth g') = length (azimuth g)
      /\ length (amplitude g') = length (amplitude g)
      /\ length (sharpness g') = length (sharpness g)).
Proof.
  cbv zeta. unfold slider_writes, filled, filled_rows.
  destruct (F64.fits_f32 e); [|repeat split].
  destruct (F64.fits_f32 a); [|simpl; rewrite ?length_fmap; repeat split].
  destruct (F64.fits_f32 m); [|simpl; rewrite ?length_fmap; repeat split].
  destruct (F64.fits_f32 s); simpl; rewrite ?length_fmap; repeat split.
Qed.

(** Values that fit are all written. *)
Lemma slider_writes_stored (e a m s : F64.t) (g : Globals) :
  storable e a m s = true ->
  let g' := slider_writes e a m s g in
  elevation g' = filled e (elevation g) /\ azimuth g' = filled a (azimuth g)
  /\ amplitude g' = filled_rows m (amplitude g) /\ sharpness g' = filled s (sharpness g).
Proof.
  unfold storable, slider_writes. rewrite !andb_true_iff.
  intros [[[-> ->] ->] ->]. repeat split.
Qed.

Section Session.
Context `{Backend}.

(** One input: what its callback leaves behind. *)
Lemma react_world input w :
  let w' := (react input w).2 in
  vis_camera (vis w') = vis_camera (vis w)
  /\ frames (vis w')
     = frames (vis w)
       ++ replicate (toggles [input] + stored_slider_changes [input]) FullFrame
  /\ nb w' = match input with
             | KeyOrPointer ev =>
                 if space_keydown ev
                 then set_apply_specular (negb (apply_specular (nb w))) (nb w)
                 else nb w
             | SliderChange e a m s => slider_writes e a m s (nb w)
             end.
Proof.
  destruct input as [ev|e a m s]; cbn [react toggles stored_slider_changes].
  - rewrite additional_event_handler_run.
    destruct (space_keydown ev).
    + destruct (render _ _).1; simpl; repeat split.
    + destruct (ui_event ev); simpl; rewrite ?app_nil_r; repeat split.
  - rewrite sliders_callback_run.
    destruct (storable e a m s) eqn:Hfit.
    + cbv zeta.
      assert (Hnb : nb (after_sliders e a m s w) = slider_writes e a m s (nb w)).
      { unfold storable in Hfit. rewrite !andb_true_iff in Hfit.
        destruct Hfit as [[[He Ha] Hm] Hs].
        unfold slider_writes. rewrite He, Ha, Hm, Hs. reflexivity. }
      destruct (render _ _).1; simpl; simpl in Hnb; rewrite <- Hnb; repeat split.
    + simpl. rewrite app_nil_r. repeat split.
Qed.

(** One input: what no callback writes, and the flag. *)
Lemma react_keeps input w :
  let w' := (react input w).2 in
  (mesh (nb w') = mesh (nb w)
   /\ diffuse_maps (nb w') = diffuse_maps (nb w)
   /\ specular_maps (nb w') = specular_maps (nb w)
   /\ camera (nb w') = camera (nb w)
   /\ vis_camera (vis w') = vis_camera (vis w))
  /\ (length (elevation (nb w')) = length (elevation (nb w))
      /\ length (azimuth (nb w')) = length (azimuth (nb w))
      /\ length (amplitude (nb w')) = length (amplitude (nb w))
      /\ length (sharpness (nb w')) = length (sharpness (nb w)))
  /\ apply_specular (nb w') = xorb (apply_specular (nb w)) (Nat.odd (toggles [input])).
Proof.
  cbv zeta. destruct (react_world input w) as (-> & _ & ->).
  destruct input as [ev|e a m s]; cbn [toggles].
  - destruct (space_keydown ev); simpl;
      rewrite ?xorb_true_r, ?xorb_false_r; repeat split.
  - destruct (slider_writes_keeps e a m s (nb w))
      as ((-> & -> & -> & -> & ->) & (-> & -> & -> & ->)).
    simpl. rewrite xorb_false_r. repeat split.
Qed.

Lemma event_loop_cons input rest w :
  (event_loop (input :: rest) w).2 = (event_loop rest (react input w).2).2.
Proof.
  cbn [event_loop]. destruct (react_returns input w) as [v Hv].
  unfold mbind, M_bind. destruct (react input w) as [o w1]. simpl in Hv. subst o.
  reflexivity.
Qed.

Lemma event_loop_app before after w :
  (event_loop (before ++ after) w).2 = (event_loop after (event_loop before w).2).2.
Proof.
  revert w. induction before as [|input before IH]; intros w; [reflexivity|].
  rewrite <- app_comm_cons, !event_loop_cons. apply IH.
Qed.

Lemma event_loop_lights_length inputs w :
  let w' := (event_loop inputs w).2 in
  length (elevation (nb w')) = length (elevation (nb w))
  /\ length (azimuth (nb w')) = length (azimuth (nb w))
  /\ length (amplitude (nb w')) = length (amplitude (nb w))
  /\ length (sharpness (nb w')) = length (sharpness (nb w)).
Proof.
  cbv zeta. revert w. induction inputs as [|input rest IH]; intros w.
  - repeat split.
  - rewrite event_loop_cons.
    destruct (IH (react input w).2) as (-> & -> & -> & ->).
    destruct (react_keeps input w) as (_ & Hlengths & _). exact Hlengths.
Qed.

(** X15.  Whatever the user does, the two callbacks of the notebook never
    write the mesh, the material maps or either camera, and the four
    lighting tensors keep their sizes: this holds after any sequence of
    events and slider changes. *)
Theorem event_loop_keeps_scene (inputs : list ui_input) (w : World) :
  let w' := (event_loop inputs w).2 in
  mesh (nb w') = mesh (nb w)
  /\ diffuse_maps (nb w') = diffuse_maps (nb w)
  /\ specular_maps (nb w') = specular_maps (nb w)
  /\ camera (nb w') = camera (nb w)
  /\ vis_camera (vis w') = vis_camera (vis w)
  /\ length (elevation (nb w')) = length (elevation (nb w))
  /\ length (azimuth (nb w')) = length (azimuth (nb w))
  /\ length (amplitude (nb w')) = length (amplitude (nb w))
  /\ length (sharpness (nb w')) = length (sharpness (nb w)).
Proof.
  cbv zeta.
  destruct (event_loop_lights_length inputs w) as (-> & -> & -> & ->).
  revert w. induction inputs as [|input rest IH]; intros w.
  - repeat split.
  - rewrite event_loop_cons.
    destruct (IH (react input w).2) as (-> & -> & -> & -> & -> & _).
    destruct (react_keeps input w) as ((-> & -> & -> & -> & ->) & _).
    repeat split.
Qed.

(** X16.  After any sequence of inputs [apply_specular] is its initial
    value flipped once per space keydown, and the frame log has grown by
    one full frame per space keydown and per slider change whose values
    all fit float32: the callbacks never ask for a fast frame, no other
    event asks for a frame, and a slider change with a value that does not
    fit asks for none. *)
Theorem event_loop_counts_toggles (inputs : list ui_input) (w : World) :
  let w' := (event_loop inputs w).2 in
  apply_specular (nb w') = xorb (apply_specular (nb w)) (Nat.odd (toggles inputs))
  /\ frames (vis w')
     = frames (vis w)
       ++ replicate (toggles inputs + stored_slider_changes inputs) FullFrame.
Proof.
  cbv zeta. revert w. induction inputs as [|input rest IH]; intros w.
  - simpl. now rewrite xorb_false_r, app_nil_r.
  - rewrite event_loop_cons.
    destruct (IH (react input w).2) as [-> ->].
    destruct (react_world input w) as (_ & -> & _).
    destruct (react_keeps input w) as (_ & _ & ->).
    rewrite <- app_assoc, <- replicate_add, xorb_assoc.
    assert (Hcount : (toggles [input] + stored_slider_changes [input]
                      + (toggles rest + stored_slider_changes rest)
                      = toggles (input :: rest)
                        + stored_slider_changes (input :: rest))%nat).
    { destruct input; simpl; lia. }
    assert (Hodd : xorb (Nat.odd (toggles [input])) (Nat.odd (toggles rest))
                   = Nat.odd (toggles (input :: rest))).
    { destruct input as [ev|]; simpl; [|reflexivity].
      destruct (space_keydown ev); simpl.
      - rewrite Nat.odd_succ, <- Nat.negb_odd. reflexivity.
      - reflexivity. }
    rewrite Hcount, Hodd. auto.
Qed.

Lemma event_loop_keeps_lights inputs w :
  slider_changes inputs = O ->
  let w' := (event_loop inputs w).2 in
  elevation (nb w') = elevation (nb w) /\ azimuth (nb w') = azimuth (nb w)
  /\ amplitude (nb w') = amplitude (nb w) /\ sharpness (nb w') = sharpness (nb w).
Proof.
  cbv zeta. revert w. induction inputs as [|input rest IH]; intros w Hnone.
  - repeat split.
  - rewrite event_loop_cons. destruct input as [ev|]; [|discriminate].
    destruct (IH (react (KeyOrPointer ev) w).2 Hnone) as (-> & -> & -> & ->).
    destruct (react_world (KeyOrPointer ev) w) as (_ & _ & ->).
    destruct (space_keydown ev); repeat split.
Qed.

(** X17.  The sliders set values, they do not accumulate: after any
    sequence of inputs the four lighting tensors hold, in every element,
    the values of the most recent slider change, provided these values fit
    float32, whatever came before that change and whatever key or pointer
    events came after it. *)
Theorem last_slider_change_wins
    (before after : list ui_input) (e a m s : F64.t) (w : World) :
  storable e a m s = true ->
  slider_changes after = O ->
  let w' := (event_loop (before ++ SliderChange e a m s :: after) w).2 in
  elevation (nb w') = replicate (length (elevation (nb w))) (F64.to_f32 e)
  /\ azimuth (nb w') = replicate (length (azimuth (nb w))) (F64.to_f32 a)
  /\ amplitude (nb w')
     = replicate (length (amplitude (nb w))) (F64.to_f32 m, F64.to_f32 m, F64.to_f32 m)
  /\ sharpness (nb w') = replicate (length (sharpness (nb w))) (F64.to_f32 s).
Proof.
  intros Hfit Hafter. cbv zeta.
  rewrite event_loop_app, event_loop_cons.
  destruct (event_loop_keeps_lights after
              (react (SliderChange e a m s) (event_loop before w).2).2 Hafter)
    as (-> & -> & -> & ->).
  destruct (react_world (SliderChange e a m s) (event_loop before w).2)
    as (_ & _ & ->).
  destruct (slider_writes_stored e a m s (nb (event_loop before w).2) Hfit)
    as (-> & -> & -> & ->).
  destruct (event_loop_lights_length before w) as (He & Ha & Hm & Hs).
  unfold filled, filled_rows.
  rewrite (const_fmap _ (elevation _) (F64.to_f32 e)) by reflexivity.
  rewrite (const_fmap _ (azimuth _) (F64.to_f32 a)) by reflexivity.
  rewrite (const_fmap _ (amplitude _) (F64.to_f32 m, F64.to_f32 m, F64.to_f32 m))
    by reflexivity.
  rewrite (const_fmap _ (sharpness _) (F64.to_f32 s)) by reflexivity.
  rewrite He, Ha, Hm, Hs. repeat split.
Qed.
End Session.

Lemma event_loop_counts_toggles_witness :
  let w' := (@event_loop Demo.backend
               [SliderChange Demo.tenth Demo.tenth Demo.beyond Demo.tenth;
                KeyOrPointer (Demo.keydown " ");
                SliderChange Demo.tenth Demo.tenth Demo.five Demo.tenth]
               Demo.world).2 in
  apply_specular (nb w') = false /\ frames (vis w') = [FullFrame; FullFrame].
Proof.
  apply (@event_loop_counts_toggles Demo.backend
           [SliderChange Demo.tenth Demo.tenth Demo.beyond Demo.tenth;
            KeyOrPointer (Demo.keydown " ");
            SliderChange Demo.tenth Demo.tenth Demo.five Demo.tenth]
           Demo.world).
Defined.

Lemma last_slider_change_wins_witness :
  let w' := (@event_loop Demo.backend
               [SliderChange Demo.tenth Demo.tenth Demo.tenth Demo.tenth;
                KeyOrPointer (Demo.keydown " ");
                SliderChange Demo.tenth Demo.tenth Demo.five Demo.tenth;
                KeyOrPointer Demo.mousemove; KeyOrPointer (Demo.keydown " ")]
               Demo.world).2 in
  amplitude (nb w') = [(F32.of_Z 5, F32.of_Z 5, F32.of_Z 5)].
Proof.
  apply (@last_slider_change_wins Demo.backend
           [SliderChange Demo.tenth Demo.tenth Demo.tenth Demo.tenth;
            KeyOrPointer (Demo.keydown " ")]
           [KeyOrPointer Demo.mousemove; KeyOrPointer (Demo.keydown " ")]
           Demo.tenth Demo.tenth Demo.five Demo.tenth Demo.world).
  - vm_compute. reflexivity.
  - reflexivity.
Defined.

(** ** The faces under the pixels *)

Lemma py_index_Ok {A : Type} (l : list A) (i : Z) (x : A) :
  py_index l i = Ok x -> - Z.of_nat (length l) <= i < Z.of_nat (length l).
Proof.
  unfold py_index.
  destruct (Z.ltb_spec i 0);
    match goal with
    | |- context [(0 <=? ?j) && (?j <? ?n)] =>
        destruct (Z.leb_spec 0 j), (Z.ltb_spec j n); simpl; try discriminate
    end; lia.
Qed.

Section FacesInRange.
Context `{Backend}.

(** X18.  [base_render] looks up the material of the face under every
    pixel, so it returns only if each entry of [face_idx] indexes
    [mesh.material_assignments] the way Python indexes (the -1 of an
    uncovered pixel reads the last face): a triangle id past the faces of
    the mesh makes it raise, and a mesh without material assignments
    cannot be rendered at any size that has a pixel. *)
Theorem base_render_face_idx_in_range
    (mesh : Mesh) (camera : camref) (height width : Z) (w w' : World) (r : RenderResult) :
  base_render mesh camera height width w = (Ok r, w') ->
  (forall i f, gpix (face_idx r) !! i = Some f ->
     - Z.of_nat (length (material_assignments mesh)) <= f
       < Z.of_nat (length (material_assignments mesh)))
  /\ (material_assignments mesh = [] -> height = 0 \/ width = 0).
Proof.
  intros E.
  assert (Hrange : forall i f, gpix (face_idx r) !! i = Some f ->
    - Z.of_nat (length (material_assignments mesh)) <= f
      < Z.of_nat (length (material_assignments mesh))).
  { pose proof E as E'. unfold base_render in E'. unbind E'.
    apply mret_Ok in E' as [-> _]. cbn [face_idx].
    match goal with
    | Hm : grid_mapM (py_index (material_assignments mesh)) ?g = Ok _ |- _ =>
        unfold grid_mapM in Hm;
        destruct (mapM (py_index (material_assignments mesh)) (gpix g)) as [px|e] eqn:Hpx;
          [|discriminate];
        apply mapM_Ok in Hpx as [_ Hpx]
    end.
    intros i f Hf. destruct (Hpx i f Hf) as (m & Hm & _).
    now apply py_index_Ok in Hm. }
  split; [exact Hrange|].
  intros Hnone.
  apply base_render_Ok in E
    as (clip & rast & lit & _ & Hidx & Hh & Hw & Hrows & Hcols & Hlen & _ & Hshown).
  apply grid_zip_Ok in Hshown as (Hext & _).
  apply same_extent_spec in Hext as (_ & _ & Hl).
  unfold coverage in Hl. simpl in Hl. rewrite length_fmap in Hl.
  destruct (gpix (face_idx r)) as [|f rest] eqn:Hpix.
  - rewrite Hidx in Hpix. simpl in Hpix.
    apply (f_equal length) in Hpix. rewrite length_fmap in Hpix. simpl in Hpix.
    rewrite <- Hl, Hlen in Hpix. nia.
  - specialize (Hrange O f eq_refl). rewrite Hnone in Hrange. simpl in Hrange. lia.
Qed.
End FacesInRange.

Lemma base_render_face_idx_in_range_witness :
  gpix (face_idx Demo.rendered) !! 1%nat = Some (-1)
  /\ - Z.of_nat (length (material_assignments (mesh Demo.globals))) <= -1
      < Z.of_nat (length (material_assignments (mesh Demo.globals))).
Proof.
  split; [reflexivity|].
  destruct (@base_render_face_idx_in_range Demo.backend (mesh Demo.globals)
              VisualizerCamera 2 3 Demo.world Demo.world Demo.rendered) as [Hrange _].
  - vm_compute. reflexivity.
  - apply (Hrange 1%nat (-1)). reflexivity.
Defined.
